(** * Client-side state synchronisation layer of the AI Pokemon Player dashboard

    A shallow embedding of the dashboard's client code:

    - the state store            ([useGameState.ts]),
    - the command dispatcher     (the [Home] page: [handleStart],
                                  [handleStop], [handleIterate]),
    - the screen poll            ([GameDisplay]),
    - the connection manager     ([useWebSocket.ts]),
    - the party display          ([PartyStatus]),
    - the agent, control and log panels ([AgentPanel], [ControlPanel],
                                  [ReasoningLog]),
    - the emulator controller    ([mGBASocketServer.lua]).

    React state cells become record fields, a [setX(f)] functional update
    becomes the application of [f] to the current field, and the browser
    (network, timers, sockets, wall clock) is an explicit environment. *)

From Stdlib Require Import ZArith Ascii String List Lia Bool.
From stdpp Require Import base list strings pretty gmap.

Open Scope string_scope.

(** * The state store: [useGameState.ts] *)

Module GameStore.

(** ** Data model (the interfaces at the top of the file) *)

Record Pokemon := {
  nickname : string;
  level : Z;
  current_hp : Z;
  max_hp : Z;
  hp_percentage : Z;
  is_fainted : bool
}.

Record Party := {
  party_count : Z;
  pokemon : list Pokemon;
  total_hp_percentage : Z
}.

Record Position := {
  x : Z;
  y : Z;
  map_bank : Z;
  map_number : Z
}.

Record GameState := {
  party : Party;
  position : Position;
  badges : Z;
  badge_count : Z;
  money : Z;
  in_battle : bool
}.

(** ['active' | 'idle' | 'busy'] *)
Inductive AgentStatus := active | idle | busy.

Record Agent := {
  name : string;
  role : string;
  status : AgentStatus;
  icon : string
}.

Record LogEntry := {
  agent : string;
  action : string;
  details : string;
  timestamp : string
}.

(** [Omit<LogEntry, 'timestamp'>]: what callers hand to [addLog]. *)
Record LogInput := {
  entry_agent : string;
  entry_action : string;
  entry_details : string
}.

Definition DEFAULT_AGENTS : list Agent :=
  [ {| name := "Planning Agent"; role := "Strategic Planner"; status := idle; icon := "🎯" |};
    {| name := "Navigation Agent"; role := "Overworld Navigator"; status := idle; icon := "🚶" |};
    {| name := "Battle Agent"; role := "Combat Strategist"; status := idle; icon := "⚔️" |};
    {| name := "Memory Agent"; role := "Memory Manager"; status := idle; icon := "🧠" |};
    {| name := "Critique Agent"; role := "Task Evaluator"; status := idle; icon := "📊" |} ].

(** The three [useState] cells of the hook. *)
Record Store := {
  gameState : option GameState;
  agents : list Agent;
  logs : list LogEntry
}.

Definition initial : Store :=
  {| gameState := None; agents := DEFAULT_AGENTS; logs := [] |}.

(** ** Operations *)

(** [setGameState(newState)] *)
Definition updateGameState (newState : GameState) (st : Store) : Store :=
  {| gameState := Some newState; agents := agents st; logs := logs st |}.

(** [{ ...agent, status }] *)
Definition with_status (s : AgentStatus) (a : Agent) : Agent :=
  {| name := name a; role := role a; status := s; icon := icon a |}.

(** [prev.map((agent) => agent.name === agentName ? { ...agent, status } : agent)] *)
Definition updateAgents (agentName : string) (s : AgentStatus) (prev : list Agent)
  : list Agent :=
  map (fun a => if String.eqb (name a) agentName then with_status s a else a) prev.

Definition updateAgentStatus (agentName : string) (s : AgentStatus) (st : Store) : Store :=
  {| gameState := gameState st;
     agents := updateAgents agentName s (agents st);
     logs := logs st |}.

(** [prev.slice(-50)]: the last 50 elements, the whole array when it is
    shorter (the subtraction on [nat] truncates at 0). *)
Definition slice_last (k : nat) {A} (l : list A) : list A :=
  drop (length l - k) l.

(** [{ ...entry, timestamp: new Date().toLocaleTimeString() }]; [now] is the
    wall clock's rendering at the time of the call. *)
Definition stamp (now : string) (entry : LogInput) : LogEntry :=
  {| agent := entry_agent entry;
     action := entry_action entry;
     details := entry_details entry;
     timestamp := now |}.

(** [(prev) => [...prev.slice(-50), { ...entry, timestamp }]] *)
Definition appendLog (now : string) (entry : LogInput) (prev : list LogEntry)
  : list LogEntry :=
  slice_last 50 prev ++ [stamp now entry].

Definition addLog (now : string) (entry : LogInput) (st : Store) : Store :=
  {| gameState := gameState st;
     agents := agents st;
     logs := appendLog now entry (logs st) |}.

(** [setLogs([])] *)
Definition clearLogs (st : Store) : Store :=
  {| gameState := gameState st; agents := agents st; logs := [] |}.

(** A sequence of [addLog] calls, each with the clock reading of its call. *)
Definition addLogs (calls : list (string * LogInput)) (st : Store) : Store :=
  fold_left (fun s c => addLog (fst c) (snd c) s) calls st.

(** The entries a call sequence appends, in call order. *)
Definition stamped (calls : list (string * LogInput)) : list LogEntry :=
  map (fun c => stamp (fst c) (snd c)) calls.

End GameStore.

(** * The command dispatcher: the [Home] page

    The handlers are [async] functions with [try]/[catch]. They are written
    in a small monad that threads the page's state cells, records every
    [fetch] the handler issues and propagates thrown values. A handler runs
    against a transport that answers each request (a mock backend). *)

Module Dispatcher.
Import GameStore.

(** ** The network as the handlers see it *)

Inductive Method := GET | POST.

(** A [fetch] call: method, path and, for [start], the model named in the
    JSON body. *)
Record Request := {
  method : Method;
  path : string;
  model : option string
}.

(** A parsed response body; an absent field is [None]. *)
Record Json := {
  detail : option string;
  game_state : option GameState;
  action_taken : option string;
  outcome : option string
}.

(** What a [catch] clause can receive: an [Error] with its message, or any
    other thrown value. *)
Inductive Thrown := ErrorObject (message : string) | NonError.

(** [response.json()] either throws (the body is not JSON) or yields the
    parsed object. *)
Inductive Body := NotJson (e : Thrown) | Parsed (j : Json).

Record Response := {
  http_status : Z;
  body : Body
}.

(** [response.ok]: the status is in the range 200-299. *)
Definition ok (r : Response) : bool :=
  (200 <=? http_status r)%Z && (http_status r <=? 299)%Z.

(** [await fetch(...)] either rejects (no response at all) or resolves. *)
Inductive FetchOutcome := Rejected (e : Thrown) | Resolved (r : Response).

(** ** The page's state *)

Record Page := {
  isRunning : bool;
  isConnected : bool;
  error : option string;
  store : Store
}.

Definition initial_page : Page :=
  {| isRunning := false; isConnected := false; error := None;
     store := GameStore.initial |}.

(** The page together with what the handler did to the outside: the
    requests it issued (oldest first) and its [console.error] lines. *)
Record World := {
  page : Page;
  calls : list Request;
  console : list string
}.

Definition on_page (f : Page -> Page) (w : World) : World :=
  {| page := f (page w); calls := calls w; console := console w |}.

Definition on_store (f : Store -> Store) (p : Page) : Page :=
  {| isRunning := isRunning p; isConnected := isConnected p;
     error := error p; store := f (store p) |}.

(** ** The handler monad *)

Inductive Outcome (A : Type) := Returned (a : A) | Threw (e : Thrown).
Arguments Returned {A} a.
Arguments Threw {A} e.

Definition Handler (A : Type) : Type := World -> Outcome A * World.

Definition ret {A} (a : A) : Handler A := fun w => (Returned a, w).

Definition bind {A B} (h : Handler A) (k : A -> Handler B) : Handler B :=
  fun w =>
    match h w with
    | (Returned a, w') => k a w'
    | (Threw e, w') => (Threw e, w')
    end.

Definition throw {A} (e : Thrown) : Handler A := fun w => (Threw e, w).

(** [try { h } catch (err) { k err }] *)
Definition try_catch {A} (h : Handler A) (k : Thrown -> Handler A) : Handler A :=
  fun w =>
    match h w with
    | (Returned a, w') => (Returned a, w')
    | (Threw e, w') => k e w'
    end.

Definition modify (f : Page -> Page) : Handler unit :=
  fun w => (Returned tt, on_page f w).

Definition read {A} (f : Page -> A) : Handler A :=
  fun w => (Returned (f (page w)), w).

Declare Scope handler_scope.
Delimit Scope handler_scope with handler.
Notation "x <- c1 ;; c2" := (bind c1 (fun x => c2))
  (at level 100, c1 at next level, right associativity) : handler_scope.
Notation "c1 ;; c2" := (bind c1 (fun _ => c2))
  (at level 100, right associativity) : handler_scope.
Open Scope handler_scope.

(** ** JavaScript idioms *)

(** [s || fallback] on an optional string: [undefined] and [''] are falsy. *)
Definition or_else (s : option string) (fallback : string) : string :=
  match s with
  | Some v => if String.eqb v "" then fallback else v
  | None => fallback
  end.

(** [err instanceof Error ? err.message : fallback] *)
Definition message_of (err : Thrown) (fallback : string) : string :=
  match err with
  | ErrorObject m => m
  | NonError => fallback
  end.

Section Handlers.

(** The backend: how each request is answered. *)
Variable transport : Request -> FetchOutcome.
(** [new Date().toLocaleTimeString()] while the handler runs. *)
Variable now : string.

Definition fetch (req : Request) : Handler Response :=
  fun w =>
    let w' := {| page := page w; calls := calls w ++ [req]; console := console w |} in
    match transport req with
    | Rejected e => (Threw e, w')
    | Resolved r => (Returned r, w')
    end.

Definition json (r : Response) : Handler Json :=
  match body r with
  | NotJson e => throw e
  | Parsed j => ret j
  end.

Definition setIsRunning (b : bool) : Handler unit :=
  modify (fun p => {| isRunning := b; isConnected := isConnected p;
                      error := error p; store := store p |}).

Definition setError (e : option string) : Handler unit :=
  modify (fun p => {| isRunning := isRunning p; isConnected := isConnected p;
                      error := e; store := store p |}).

Definition updateGameState (gs : GameState) : Handler unit :=
  modify (on_store (GameStore.updateGameState gs)).

Definition addLog (entry : LogInput) : Handler unit :=
  modify (on_store (GameStore.addLog now entry)).

Definition console_error (line : string) : Handler unit :=
  fun w => (Returned tt,
            {| page := page w; calls := calls w; console := console w ++ [line] |}).

Definition start_request : Request :=
  {| method := POST; path := "/api/game/start";
     model := Some "groq/llama-3.3-70b-versatile" |}.

Definition stop_request : Request :=
  {| method := POST; path := "/api/game/stop"; model := None |}.

Definition iterate_request : Request :=
  {| method := POST; path := "/api/game/iterate"; model := None |}.

Definition handleStart : Handler unit :=
  try_catch
    (setError None ;;
     response <- fetch start_request ;;
     (if negb (ok response)
      then data <- json response ;;
           throw (ErrorObject (or_else (detail data) "Failed to start"))
      else ret tt) ;;
     setIsRunning true ;;
     addLog {| entry_agent := "System"; entry_action := "started";
               entry_details := "AI Pokemon player started" |})
    (fun err => setError (Some (message_of err "Failed to start game"))).

Definition handleStop : Handler unit :=
  try_catch
    (fetch stop_request ;;
     setIsRunning false ;;
     addLog {| entry_agent := "System"; entry_action := "stopped";
               entry_details := "AI Pokemon player stopped" |})
    (fun err => setError (Some (message_of err "Failed to stop game"))).

Definition handleIterate : Handler unit :=
  running <- read isRunning ;;
  if negb running then ret tt
  else
    try_catch
      (response <- fetch iterate_request ;;
       result <- json response ;;
       (match game_state result with
        | Some gs => updateGameState gs
        | None => ret tt
        end) ;;
       (match action_taken result with
        | Some taken =>
            if String.eqb taken "" then ret tt   (* [''] is falsy *)
            else
              addLog {| entry_agent := if String.eqb taken "battle"
                                       then "Battle Agent" else "Planning Agent";
                        entry_action := taken;
                        entry_details := or_else (outcome result) "Action completed" |}
        | None => ret tt
        end))
      (fun err => console_error "Iteration error:").

(** Run a handler on a page with nothing issued yet. *)
Definition run {A} (h : Handler A) (p : Page) : World :=
  snd (h {| page := p; calls := []; console := [] |}).

End Handlers.

End Dispatcher.

(** * The screen poll: [GameDisplay]

    The component is driven by three kinds of events: the parent renders it
    with a value of the [isRunning] prop, the 500 ms interval fires, and the
    answer to a [fetch('/api/game/screen')] arrives. *)

Module GameDisplay.

(** The answer to one screen request. *)
Inductive ScreenOutcome :=
| FetchRejected                        (* [fetch] rejects *)
| ScreenResponse (ok : bool) (image : option string).
  (* a response; [image] is [None] when [response.json()] throws *)

Record Display := {
  isRunning : bool;            (* the prop at the last render *)
  screenImage : option string; (* the [useState] cell *)
  interval : option bool;      (* the live [setInterval]; it holds the
                                  [fetchScreen] of the render that set it,
                                  whose closure captured this [isRunning] *)
  inflight : nat;              (* requests not answered yet *)
  issued : nat;                (* requests issued so far *)
  console : list string
}.

(** The component as first mounted with [isRunning = false]: the effect has
    run its [else] branch. *)
Definition mounted : Display :=
  {| isRunning := false; screenImage := None; interval := None;
     inflight := 0; issued := 0; console := [] |}.

Definition setScreenImage (v : option string) (d : Display) : Display :=
  {| isRunning := isRunning d; screenImage := v; interval := interval d;
     inflight := inflight d; issued := issued d; console := console d |}.

(** [fetchScreen] up to its [await]: [captured] is the [isRunning] its
    closure was created with. *)
Definition fetchScreen (captured : bool) (d : Display) : Display :=
  if negb captured then d
  else {| isRunning := isRunning d; screenImage := screenImage d;
          interval := interval d;
          inflight := S (inflight d); issued := S (issued d);
          console := console d |}.

(** [fetchScreen] after its [await]: the response is handled whatever the
    component's state has become in the meantime. *)
Definition resume (o : ScreenOutcome) (d : Display) : Display :=
  match o with
  | ScreenResponse true (Some image) =>
      setScreenImage (Some ("data:image/png;base64," ++ image)) d
  | ScreenResponse true None | FetchRejected =>
      {| isRunning := isRunning d; screenImage := screenImage d;
         interval := interval d; inflight := inflight d; issued := issued d;
         console := console d ++ ["Failed to fetch screen:"] |}
  | ScreenResponse false _ => d
  end.

(** The effect's cleanup: [clearInterval(interval)] when the previous run
    returned one. *)
Definition cleanup (d : Display) : Display :=
  {| isRunning := isRunning d; screenImage := screenImage d; interval := None;
     inflight := inflight d; issued := issued d; console := console d |}.

(** The body of the [useEffect] for a render with prop [running]. *)
Definition effect (running : bool) (d : Display) : Display :=
  if running then
    let d1 := fetchScreen running d in
    {| isRunning := isRunning d1; screenImage := screenImage d1;
       interval := Some running;
       inflight := inflight d1; issued := issued d1; console := console d1 |}
  else setScreenImage None d.

(** A render with prop [running]: the effect's dependencies
    [[isRunning, fetchScreen]] change exactly when the prop does. *)
Definition render (running : bool) (d : Display) : Display :=
  if Bool.eqb running (isRunning d) then d
  else
    let d1 := cleanup d in
    effect running
      {| isRunning := running; screenImage := screenImage d1;
         interval := interval d1; inflight := inflight d1;
         issued := issued d1; console := console d1 |}.

Inductive Event :=
| Render (running : bool)
| Tick
| Arrive (o : ScreenOutcome).

(** One turn of the event loop; [None] when the event cannot happen (no
    interval is set, or nothing is in flight). *)
Definition step (e : Event) (d : Display) : option Display :=
  match e with
  | Render running => Some (render running d)
  | Tick =>
      match interval d with
      | Some captured => Some (fetchScreen captured d)
      | None => None
      end
  | Arrive o =>
      match inflight d with
      | S n =>
          Some (resume o
                  {| isRunning := isRunning d; screenImage := screenImage d;
                     interval := interval d; inflight := n;
                     issued := issued d; console := console d |})
      | O => None
      end
  end.

Fixpoint run (es : list Event) (d : Display) : option Display :=
  match es with
  | [] => Some d
  | e :: es' =>
      match step e d with
      | Some d' => run es' d'
      | None => None
      end
  end.

(** Events other than a render with [isRunning = true]. *)
Definition keeps_stopped (e : Event) : Prop :=
  match e with
  | Render true => False
  | _ => True
  end.

End GameDisplay.

(** * The connection manager: [useWebSocket.ts]

    The hook's two state cells and two refs, together with the part of the
    browser it talks to: the [WebSocket] objects it has constructed, the
    pending [setTimeout] timers and a millisecond clock. *)

Module Connection.
Import GameStore.

Inductive ConnectionStatus := connecting | connected | disconnected | error.

(** [WebSocket.readyState] *)
Inductive ReadyState := CONNECTING | OPEN | CLOSING | CLOSED.

#[global] Instance ReadyState_eq_dec : EqDecision ReadyState.
Proof. solve_decision. Defined.

(** The payload of a message, by the shape its [type] announces. *)
Inductive Payload :=
| GameStateData (gs : GameState)
| AgentActionData (entry : LogInput)
| NoData.

Record WebSocketMessage := {
  type : string;
  data : Payload
}.

(** A text frame: [JSON.parse(event.data)] throws or yields a message. *)
Inductive Frame := Malformed | WellFormed (m : WebSocketMessage).

(** The delay of the reconnection timer, in milliseconds. *)
Definition RECONNECT_DELAY : N := 3000.

Record Timer := {
  handle : nat;   (* what [setTimeout] returned *)
  due : N         (* the clock value from which it may fire *)
}.

Record World := {
  (* the hook *)
  connectionStatus : ConnectionStatus;
  lastMessage : option WebSocketMessage;
  wsRef : option nat;                 (* index into [sockets] *)
  reconnectTimeoutRef : option nat;   (* a timer handle *)
  (* the browser *)
  url_ok : bool;                (* [new WebSocket(url)] accepts the url *)
  sockets : list ReadyState;    (* every socket constructed, oldest first *)
  timers : list Timer;          (* the pending timeouts *)
  next_handle : nat;            (* handles are positive and never reused *)
  clock : N;                    (* milliseconds *)
  console : list string
}.

(** The hook before its mount effect has run. *)
Definition initial (valid_url : bool) : World :=
  {| connectionStatus := disconnected; lastMessage := None;
     wsRef := None; reconnectTimeoutRef := None;
     url_ok := valid_url; sockets := []; timers := []; next_handle := 1;
     clock := 0%N; console := [] |}.

Definition setConnectionStatus (s : ConnectionStatus) (w : World) : World :=
  {| connectionStatus := s; lastMessage := lastMessage w;
     wsRef := wsRef w; reconnectTimeoutRef := reconnectTimeoutRef w;
     url_ok := url_ok w; sockets := sockets w; timers := timers w;
     next_handle := next_handle w; clock := clock w; console := console w |}.

Definition setLastMessage (m : WebSocketMessage) (w : World) : World :=
  {| connectionStatus := connectionStatus w; lastMessage := Some m;
     wsRef := wsRef w; reconnectTimeoutRef := reconnectTimeoutRef w;
     url_ok := url_ok w; sockets := sockets w; timers := timers w;
     next_handle := next_handle w; clock := clock w; console := console w |}.

Definition set_wsRef (r : option nat) (w : World) : World :=
  {| connectionStatus := connectionStatus w; lastMessage := lastMessage w;
     wsRef := r; reconnectTimeoutRef := reconnectTimeoutRef w;
     url_ok := url_ok w; sockets := sockets w; timers := timers w;
     next_handle := next_handle w; clock := clock w; console := console w |}.

Definition set_sockets (l : list ReadyState) (w : World) : World :=
  {| connectionStatus := connectionStatus w; lastMessage := lastMessage w;
     wsRef := wsRef w; reconnectTimeoutRef := reconnectTimeoutRef w;
     url_ok := url_ok w; sockets := l; timers := timers w;
     next_handle := next_handle w; clock := clock w; console := console w |}.

Definition set_timers (l : list Timer) (w : World) : World :=
  {| connectionStatus := connectionStatus w; lastMessage := lastMessage w;
     wsRef := wsRef w; reconnectTimeoutRef := reconnectTimeoutRef w;
     url_ok := url_ok w; sockets := sockets w; timers := l;
     next_handle := next_handle w; clock := clock w; console := console w |}.

Definition console_error (line : string) (w : World) : World :=
  {| connectionStatus := connectionStatus w; lastMessage := lastMessage w;
     wsRef := wsRef w; reconnectTimeoutRef := reconnectTimeoutRef w;
     url_ok := url_ok w; sockets := sockets w; timers := timers w;
     next_handle := next_handle w; clock := clock w;
     console := console w ++ [line] |}.

(** [wsRef.current?.readyState] *)
Definition current_readyState (w : World) : option ReadyState :=
  match wsRef w with
  | Some i => sockets w !! i
  | None => None
  end.

(** [wsRef.current?.readyState === WebSocket.OPEN] *)
Definition current_is_open (w : World) : bool :=
  match current_readyState w with
  | Some OPEN => true
  | _ => false
  end.

(** [setTimeout(() => connect(), delay)]: a fresh handle, stored in the ref
    by the caller. *)
Definition setTimeout (delay : N) (w : World) : nat * World :=
  let h := next_handle w in
  (h,
   {| connectionStatus := connectionStatus w; lastMessage := lastMessage w;
      wsRef := wsRef w; reconnectTimeoutRef := reconnectTimeoutRef w;
      url_ok := url_ok w; sockets := sockets w;
      timers := timers w ++ [{| handle := h; due := (clock w + delay)%N |}];
      next_handle := S h; clock := clock w; console := console w |}).

(** [clearTimeout(h)] *)
Definition clearTimeout (h : nat) (w : World) : World :=
  set_timers (filter (fun t => handle t ≠ h) (timers w)) w.

(** [connect] *)
Definition connect (w : World) : World :=
  if current_is_open w then w
  else
    let w1 := setConnectionStatus connecting w in
    if url_ok w1 then
      (* [new WebSocket(url)], the four handlers, [wsRef.current = ws] *)
      let ws := length (sockets w1) in
      set_wsRef (Some ws) (set_sockets (sockets w1 ++ [CONNECTING]) w1)
    else
      console_error "Failed to create WebSocket:" (setConnectionStatus error w1).

(** [ws.close()]: a socket that is connecting or open starts closing; its
    close event is delivered later. *)
Definition ws_close (i : nat) (w : World) : World :=
  match sockets w !! i with
  | Some CONNECTING | Some OPEN => set_sockets (<[i := CLOSING]> (sockets w)) w
  | _ => w
  end.

(** [disconnect] *)
Definition disconnect (w : World) : World :=
  let w1 :=
    match reconnectTimeoutRef w with
    | Some h => if Nat.eqb h 0 then w else clearTimeout h w
    | None => w
    end in
  match wsRef w1 with
  | Some i => set_wsRef None (ws_close i w1)
  | None => w1
  end.

(** [ws.onopen] *)
Definition onopen (w : World) : World :=
  setConnectionStatus connected w.

(** [ws.onmessage] *)
Definition onmessage (f : Frame) (w : World) : World :=
  match f with
  | WellFormed m => setLastMessage m w
  | Malformed => console_error "Failed to parse WebSocket message:" w
  end.

(** [ws.onclose] *)
Definition onclose (w : World) : World :=
  let w1 := setConnectionStatus disconnected w in
  let '(h, w2) := setTimeout RECONNECT_DELAY w1 in
  {| connectionStatus := connectionStatus w2; lastMessage := lastMessage w2;
     wsRef := wsRef w2; reconnectTimeoutRef := Some h;
     url_ok := url_ok w2; sockets := sockets w2; timers := timers w2;
     next_handle := next_handle w2; clock := clock w2; console := console w2 |}.

(** [ws.onerror] *)
Definition onerror (w : World) : World :=
  console_error "WebSocket error:" (setConnectionStatus error w).

(** ** The event loop *)

Inductive Event :=
| CallConnect                 (* the mount effect or any caller of [connect] *)
| CallDisconnect              (* the effect's cleanup or any caller *)
| Open (ws : nat)             (* the handshake of socket [ws] completes *)
| Message (ws : nat) (f : Frame)
| Failure (ws : nat)          (* the connection fails: error, then close *)
| Close (ws : nat)            (* the connection is closed *)
| Fire (h : nat)              (* the timer with handle [h] fires *)
| Advance (ms : N).         (* time passes *)

Definition find_timer (h : nat) (w : World) : option Timer :=
  List.find (fun t => Nat.eqb (handle t) h) (timers w).

(** One turn of the event loop; [None] when the browser cannot deliver the
    event in this state. Every socket the hook constructs carries the same
    four handlers. *)
Definition step (e : Event) (w : World) : option World :=
  match e with
  | CallConnect => Some (connect w)
  | CallDisconnect => Some (disconnect w)
  | Open i =>
      match sockets w !! i with
      | Some CONNECTING => Some (onopen (set_sockets (<[i := OPEN]> (sockets w)) w))
      | _ => None
      end
  | Message i f =>
      match sockets w !! i with
      | Some OPEN | Some CLOSING => Some (onmessage f w)
      | _ => None
      end
  | Failure i =>
      match sockets w !! i with
      | Some CLOSED | None => None
      | Some _ =>
          Some (onclose (onerror (set_sockets (<[i := CLOSED]> (sockets w)) w)))
      end
  | Close i =>
      match sockets w !! i with
      | Some CLOSED | None => None
      | Some _ => Some (onclose (set_sockets (<[i := CLOSED]> (sockets w)) w))
      end
  | Fire h =>
      match find_timer h w with
      | Some t =>
          if (due t <=? clock w)%N
          then Some (connect (clearTimeout h w))
          else None
      | None => None
      end
  | Advance ms =>
      Some {| connectionStatus := connectionStatus w; lastMessage := lastMessage w;
              wsRef := wsRef w; reconnectTimeoutRef := reconnectTimeoutRef w;
              url_ok := url_ok w; sockets := sockets w; timers := timers w;
              next_handle := next_handle w; clock := (clock w + ms)%N;
              console := console w |}
  end.

Fixpoint run (es : list Event) (w : World) : option World :=
  match es with
  | [] => Some w
  | e :: es' =>
      match step e w with
      | Some w' => run es' w'
      | None => None
      end
  end.

(** The sockets that can still deliver events to the hook. *)
Definition live_sockets (l : list ReadyState) : nat :=
  length (filter (fun s => s ≠ CLOSED) l).

Definition live (w : World) : nat := live_sockets (sockets w).

(** The events of the automatic reconnection loop: everything but the
    calls of [connect] and [disconnect] from outside the hook. *)
Definition automatic (e : Event) : Prop :=
  match e with
  | CallConnect | CallDisconnect => False
  | _ => True
  end.

(** One connection attempt at a time: a live socket or a pending timer,
    never both and never two of either. *)
Definition one_attempt (w : World) : Prop :=
  live w + length (timers w) <= 1.

(** The hook after its mount effect has called [connect]. *)
Definition mounted : World := connect (initial true).

(** One round of a transport that closes right after opening: socket [n]
    opens and closes, the backoff elapses and the timer set by the close,
    whose handle is [n + 1], fires. *)
Definition flapping_round (n : nat) : list Event :=
  [Open n; Close n; Advance RECONNECT_DELAY; Fire (S n)].

Fixpoint flapping_rounds (first count : nat) : list Event :=
  match count with
  | O => []
  | S count' => flapping_round first ++ flapping_rounds (S first) count'
  end.

(** The hook waiting for its [n]-th reconnection attempt to open, at clock
    [c]: [n] closed sockets behind it, no timer pending. *)
Definition awaiting (n : nat) (c : N) : World :=
  {| connectionStatus := connecting; lastMessage := None;
     wsRef := Some n;
     reconnectTimeoutRef := match n with O => None | S _ => Some n end;
     url_ok := true; sockets := replicate n CLOSED ++ [CONNECTING];
     timers := []; next_handle := S n; clock := c; console := [] |}.

End Connection.

(** * The party display: [PartyStatus] *)

Module PartyStatus.
Import GameStore.

Definition getHPClass (percentage : Z) : string :=
  if (50 <? percentage)%Z then "hp-high"
  else if (20 <? percentage)%Z then "hp-medium"
  else "hp-low".

(** What one cell of the grid shows of a party member. *)
Record Card := {
  label : string;        (* [poke.nickname || `Pokemon ${index + 1}`] *)
  shown_level : Z;       (* [Lv.{poke.level}] *)
  bar_class : string;    (* [getHPClass(poke.hp_percentage)] *)
  bar_width : Z;         (* [width: `${poke.hp_percentage}%`] *)
  shown_hp : Z * Z;      (* [{poke.current_hp}/{poke.max_hp}] *)
  shown_fainted : bool   (* the skull mark, the red background, the opacity *)
}.

Definition card (index : nat) (poke : Pokemon) : Card :=
  {| label := if String.eqb (nickname poke) ""
              then "Pokemon " ++ pretty.pretty (index + 1)%nat
              else nickname poke;
     shown_level := level poke;
     bar_class := getHPClass (hp_percentage poke);
     bar_width := hp_percentage poke;
     shown_hp := (current_hp poke, max_hp poke);
     shown_fainted := is_fainted poke |}.

(** [const pokemon = party?.pokemon || []] and the [pokemon.map] of the
    grid. *)
Definition PartyStatus (party : option Party) : list Card :=
  let pokemon :=
    match party with
    | Some p => pokemon p
    | None => []
    end in
  imap card pokemon.

End PartyStatus.

(** * The [Home] page: routing inbound messages, rendering the party *)

Module Home.
Import GameStore.

(** The two casts of the [lastMessage] effect, [lastMessage.data as ...],
    check nothing when the page runs: [updateGameState] and [addLog] are
    called with whatever [data] is. The cells below are the store's cells
    with the values such a call can leave in them. *)

(** The [gameState] cell. *)
Inductive SnapshotCell :=
| NoSnapshot                 (* [null], or [undefined] after a message without [data] *)
| Snapshot (gs : GameState)
| NotASnapshot.              (* an object of another shape: [gameState?.party] is [undefined] *)

(** An element of [logs]: [{ ...entry, timestamp }]. *)
Inductive LogCell :=
| Logged (entry : LogEntry)
| Fieldless (timestamp : string).  (* no [agent], [action] and [details] among its fields *)

Record Cells := {
  snapshot : SnapshotCell;
  roster : list Agent;
  entries : list LogCell
}.

(** The cells of a store whose values all have their declared types. *)
Definition cells_of (st : Store) : Cells :=
  {| snapshot := match gameState st with
                 | Some gs => Snapshot gs
                 | None => NoSnapshot
                 end;
     roster := agents st;
     entries := map Logged (logs st) |}.

(** [updateGameState(lastMessage.data as ...)]: [setGameState(newState)]
    with [data] as it came. *)
Definition store_data (data : Connection.Payload) (c : Cells) : Cells :=
  {| snapshot := match data with
                 | Connection.GameStateData gs => Snapshot gs
                 | Connection.AgentActionData _ => NotASnapshot
                 | Connection.NoData => NoSnapshot
                 end;
     roster := roster c;
     entries := entries c |}.

(** [addLog(lastMessage.data as ...)]:
    [setLogs(prev => [...prev.slice(-50), { ...entry, timestamp }])] with
    [data] as it came. *)
Definition log_data (now : string) (data : Connection.Payload) (c : Cells) : Cells :=
  {| snapshot := snapshot c;
     roster := roster c;
     entries := slice_last 50 (entries c)
                ++ [match data with
                    | Connection.AgentActionData entry => Logged (stamp now entry)
                    | Connection.GameStateData _ => Fieldless now
                    | Connection.NoData => Fieldless now
                    end] |}.

(** The effect on [lastMessage]: the [data] of a [game_state] message is
    stored as the snapshot, the [data] of an [agent_action] message is
    logged, a message of another [type] is ignored. *)
Definition route (now : string) (m : Connection.WebSocketMessage) (c : Cells) : Cells :=
  if String.eqb (Connection.type m) "game_state" then
    store_data (Connection.data m) c
  else if String.eqb (Connection.type m) "agent_action" then
    log_data now (Connection.data m) c
  else c.

(** [<PartyStatus party={gameState?.party} />] *)
Definition displayed_party (c : Cells) : list PartyStatus.Card :=
  PartyStatus.PartyStatus
    match snapshot c with
    | Snapshot gs => Some (party gs)
    | NoSnapshot => None
    | NotASnapshot => None
    end.

(** A [game_state] message carrying the snapshot [gs]. *)
Definition game_state_message (gs : GameState) : Connection.WebSocketMessage :=
  {| Connection.type := "game_state"; Connection.data := Connection.GameStateData gs |}.

(** An [agent_action] message carrying the entry [entry]. *)
Definition agent_action_message (entry : LogInput) : Connection.WebSocketMessage :=
  {| Connection.type := "agent_action"; Connection.data := Connection.AgentActionData entry |}.




End Home.

(** * Sequences of store operations *)

Module StoreOps.
Import GameStore.

(** One call of an operation the hook returns. *)
Inductive StoreOp :=
| UpdateGameState (newState : GameState)
| UpdateAgentStatus (agentName : string) (s : AgentStatus)
| AddLog (now : string) (entry : LogInput)
| ClearLogs.

Definition apply_op (op : StoreOp) (st : Store) : Store :=
  match op with
  | UpdateGameState newState => updateGameState newState st
  | UpdateAgentStatus agentName s => updateAgentStatus agentName s st
  | AddLog now entry => addLog now entry st
  | ClearLogs => clearLogs st
  end.

Definition apply_ops (ops : list StoreOp) (st : Store) : Store :=
  fold_left (fun s op => apply_op op s) ops st.

Definition is_snapshot_update (op : StoreOp) : Prop :=
  match op with
  | UpdateGameState _ => True
  | _ => False
  end.

End StoreOps.

(** * The agent panel: [AgentPanel] *)

Module AgentPanel.
Import GameStore.

(** What one card of the panel shows. *)
Record AgentRow := {
  row_key : string;         (* [key={agent.name}] *)
  row_icon : string;        (* [{agent.icon}] *)
  row_name : string;        (* [{agent.name}] *)
  row_role : string;        (* [{agent.role}] *)
  row_active : bool;        (* the [active] class and the dot's colour *)
  row_label : string;       (* [{isActive ? 'Active' : 'Idle'}] *)
  row_position : nat        (* [index], which delays the slide-in *)
}.

Definition agent_row (isActive : bool) (index : nat) (a : Agent) : AgentRow :=
  {| row_key := name a;
     row_icon := icon a;
     row_name := name a;
     row_role := role a;
     row_active := isActive;
     row_label := if isActive then "Active" else "Idle";
     row_position := index |}.

(** [const displayAgents = agents.length > 0 ? agents : DEFAULT_AGENTS] and
    the [displayAgents.map] of the panel. *)
Definition AgentPanel (agents : list Agent) (isActive : bool) : list AgentRow :=
  let displayAgents :=
    if (0 <? length agents)%nat then agents else DEFAULT_AGENTS in
  imap (agent_row isActive) displayAgents.

End AgentPanel.

(** * The control panel: [ControlPanel] *)

Module ControlPanel.
Import GameStore.

(** The binary digits of a positive integer, most significant first. *)
Fixpoint binary_digits (p : positive) : string :=
  match p with
  | xH => "1"
  | xO q => binary_digits q ++ "0"
  | xI q => binary_digits q ++ "1"
  end.

(** [badges.toString(2)] on an integer. *)
Definition toString2 (badges : Z) : string :=
  match badges with
  | Z0 => "0"
  | Zpos p => binary_digits p
  | Zneg p => "-" ++ binary_digits p
  end.

(** [(s.match(/1/g) || []).length]: the occurrences of the character. *)
Fixpoint count_char (c : Ascii.ascii) (s : string) : nat :=
  match s with
  | EmptyString => 0
  | String a rest =>
      (if Ascii.eqb a c then 1 else 0) + count_char c rest
  end.

(** [badgeCount], for the integer bitmask the backend sends. *)
Definition badgeCount (badges : Z) : nat :=
  count_char "1"%char (toString2 badges).

(** The buttons and the status line, by the [isRunning] prop. *)
Record Controls := {
  start_button : bool;
  stop_button : bool;
  iterate_button : bool;
  status_text : string
}.

Definition controls (isRunning : bool) : Controls :=
  {| start_button := negb isRunning;
     stop_button := isRunning;
     iterate_button := isRunning;
     status_text := if isRunning then "AI Active" else "Stopped" |}.

(** [badges={gameState?.badges || 0}] as [Home] passes it. *)
Definition badges_prop (st : Store) : Z :=
  match gameState st with
  | Some gs => badges gs
  | None => 0
  end.

(** The number of positions below [n] at which the bitmask has a bit set. *)
Definition bits_set (badges : Z) (n : nat) : nat :=
  length (List.filter (fun i => Z.testbit badges (Z.of_nat i)) (seq 0 n)).

End ControlPanel.

(** * Sending, and further notions about the connection manager *)

Module Outbound.
Import Connection.

(** [sendMessage]: the text handed to [ws.send] and the socket it goes to,
    or [None] when nothing is sent. [message] is [JSON.stringify]'s
    result. *)
Definition sendMessage (message : string) (w : World) : option (nat * string) :=
  match wsRef w with
  | Some i =>
      match sockets w !! i with
      | Some OPEN => Some (i, message)
      | _ => None
      end
  | None => None
  end.

(** No pending timer carries a handle [setTimeout] has yet to give out. *)
Definition handles_fresh (w : World) : Prop :=
  Forall (fun t => handle t < next_handle w) (timers w).

(** Every pending timer is the one [reconnectTimeoutRef] remembers. *)
Definition timers_remembered (w : World) : Prop :=
  1 <= next_handle w
  /\ Forall (fun t => reconnectTimeoutRef w = Some (handle t) /\ handle t <> 0)
            (timers w).

Definition is_wellformed (f : Frame) : Prop :=
  match f with
  | WellFormed _ => True
  | Malformed => False
  end.

End Outbound.

(** * Routing a stream of inbound messages *)

Module Inbound.
Import GameStore.


End Inbound.

(** * The reasoning log: [ReasoningLog] *)

Module ReasoningLog.
Import GameStore.

(** [s.includes(sub)] *)
Fixpoint includes (s sub : string) : bool :=
  if String.prefix sub s then true
  else
    match s with
    | EmptyString => false
    | String _ rest => includes rest sub
    end.

Definition getLogClass (action : string) : string :=
  if includes action "error" || includes action "fail" then "error"
  else if includes action "think" || includes action "plan" then "thinking"
  else if includes action "success" || includes action "won" then "success"
  else "action".

Definition getAgentIcon (agent : string) : string :=
  if includes agent "Planning" then "🎯"
  else if includes agent "Navigation" then "🚶"
  else if includes agent "Battle" then "⚔️"
  else if includes agent "Memory" then "🧠"
  else if includes agent "Critique" then "📊"
  else if includes agent "System" then "⚙️"
  else "🤖".

(** What one line of the log shows. *)
Record LogLine := {
  line_class : string;      (* [getLogClass(log.action)] *)
  line_icon : string;       (* [getAgentIcon(log.agent)] *)
  line_agent : string;
  line_time : string;       (* [log.timestamp || new Date().toLocaleTimeString()] *)
  line_details : string
}.

Definition log_line (now : string) (log : LogEntry) : LogLine :=
  {| line_class := getLogClass (action log);
     line_icon := getAgentIcon (agent log);
     line_agent := agent log;
     line_time := if String.eqb (timestamp log) "" then now else timestamp log;
     line_details := details log |}.

(** [logs.map(...)]; an empty log shows the placeholder, that is no
    line. *)
Definition ReasoningLog (now : string) (logs : list LogEntry) : list LogLine :=
  map (log_line now) logs.

End ReasoningLog.

(** * The emulator controller: [mGBASocketServer.lua]

    The script runs inside the emulator: once per frame it releases the
    buttons whose tap has lasted long enough, then reads a command from a
    file, executes it and writes the response to another file. Lua errors
    are explicit: a command that raises one aborts the frame callback. *)

Module Controller.

Definition SCREEN_FILE : string := "/tmp/mgba_screen.png".
Definition HOLD_FRAMES : nat := 8.

(** The emulator calls that are only recorded. *)
Inductive EmuCall :=
| Screenshot (file : string)
| Pause
| Unpause
| EmuReset
| SaveStateSlot (slot : Z)
| LoadStateSlot (slot : Z).

Record Machine := {
  keys : gset nat;                    (* the keys the emulator holds down *)
  pressedButtons : gmap nat bool;
  framesSincePress : gmap nat nat;
  command_file : option string;       (* [None]: the file does not exist *)
  response_file : option string;
  response_writable : bool;           (* [io.open(RESPONSE_FILE, "w")] succeeds *)
  emu_calls : list EmuCall;
  console : list string
}.

(** The lines the script logs while it loads. *)
Definition banner : list string :=
  map (fun line => "[AI-Pokemon] " ++ line)%string
      ["========================================";
       " AI Pokemon Player - mGBA Controller";
       "========================================";
       "";
       "Commands via: /tmp/mgba_command.txt";
       "Responses at: /tmp/mgba_response.txt";
       "Screenshots:  /tmp/mgba_screen.png";
       "";
       "Ready! Waiting for commands...";
       ""].

(** The script once loaded: [clearFiles()] has removed both files. *)
Definition loaded (writable : bool) : Machine :=
  {| keys := ∅; pressedButtons := ∅; framesSincePress := ∅;
     command_file := None; response_file := None;
     response_writable := writable; emu_calls := []; console := banner |}.

(** ** Lua errors and the script's monad *)

Inductive LuaError :=
| ConcatenateNil                       (* [".."] applied to [nil] *)
| BadArgument (function : string).     (* a library function given [nil] *)

Inductive Outcome (A : Type) := Done (a : A) | Raised (e : LuaError).
Arguments Done {A} a.
Arguments Raised {A} e.

Definition Lua (A : Type) : Type := Machine -> Outcome A * Machine.

Definition ret {A} (a : A) : Lua A := fun m => (Done a, m).

Definition bind {A B} (c : Lua A) (k : A -> Lua B) : Lua B :=
  fun m =>
    match c m with
    | (Done a, m') => k a m'
    | (Raised e, m') => (Raised e, m')
    end.

Definition raise {A} (e : LuaError) : Lua A := fun m => (Raised e, m).

Declare Scope lua_scope.
Delimit Scope lua_scope with lua.
Notation "x <- c1 ;; c2" := (bind c1 (fun x => c2))
  (at level 100, c1 at next level, right associativity) : lua_scope.
Notation "c1 ;; c2" := (bind c1 (fun _ => c2))
  (at level 100, right associativity) : lua_scope.

(** ** Strings *)

Definition bar : ascii := "|"%char.

(** [string.gmatch(cmd, "[^|]+")]: the maximal runs of characters other
    than the bar, in order; [current] is the run being read. *)
Fixpoint fields_from (current : string) (s : string) : list string :=
  match s with
  | EmptyString => if String.eqb current "" then [] else [current]
  | String c rest =>
      if Ascii.eqb c bar then
        if String.eqb current "" then fields_from "" rest
        else current :: fields_from "" rest
      else fields_from (current ++ String c "") rest
  end.

Definition gmatch_fields (cmd : string) : list string := fields_from "" cmd.

(** [content:gsub("[\r\n]", "")] *)
Fixpoint strip_newlines (s : string) : string :=
  match s with
  | EmptyString => EmptyString
  | String c rest =>
      if Ascii.eqb c "013"%char || Ascii.eqb c "010"%char
      then strip_newlines rest
      else String c (strip_newlines rest)
  end.

Definition upper_char (c : ascii) : ascii :=
  let n := nat_of_ascii c in
  if (97 <=? n)%nat && (n <=? 122)%nat then ascii_of_nat (n - 32) else c.

(** [string.upper] *)
Fixpoint upper (s : string) : string :=
  match s with
  | EmptyString => EmptyString
  | String c rest => String (upper_char c) (upper rest)
  end.

Definition hex_digit (n : N) : ascii :=
  match n with
  | 0 => "0" | 1 => "1" | 2 => "2" | 3 => "3" | 4 => "4" | 5 => "5"
  | 6 => "6" | 7 => "7" | 8 => "8" | 9 => "9" | 10 => "A" | 11 => "B"
  | 12 => "C" | 13 => "D" | 14 => "E" | _ => "F"
  end%N%char.

(** The digits of [n] in base 16, the most significant first, in front of
    [acc]; [fuel] bounds their number. *)
Fixpoint hex_digits (fuel : nat) (n : N) (acc : string) : string :=
  match fuel with
  | O => acc
  | S fuel' =>
      let acc' := String (hex_digit (n mod 16)) acc in
      if (n / 16 =? 0)%N then acc' else hex_digits fuel' (n / 16) acc'
  end.

(** [%X]: the integer read as an unsigned 64-bit value, in upper-case
    base 16, so in at most 16 digits. *)
Definition format_X (value : Z) : string :=
  hex_digits 16 (Z.to_N (value mod 2 ^ 64)) "".

(** [string.format("%02X", value)]: [%X] with zeros in front up to a width
    of two characters; a value of more digits is printed in full. *)
Definition format_02X (value : Z) : string :=
  let digits := format_X value in
  if (String.length digits <? 2)%nat then String "0" digits else digits.



Fixpoint concat_strings (l : list string) : string :=
  match l with
  | [] => ""
  | s :: rest => s ++ concat_strings rest
  end.

(** [buttonMap] *)
Definition buttonMap : list (string * nat) :=
  [("A", 0); ("B", 1); ("SELECT", 2); ("START", 3); ("RIGHT", 4);
   ("LEFT", 5); ("UP", 6); ("DOWN", 7); ("R", 8); ("L", 9)].

Definition lookup_button (name : string) : option nat :=
  snd <$> List.find (fun entry => String.eqb (fst entry) name) buttonMap.

(** ** The emulator and the files *)

Definition log (message : string) : Lua unit :=
  fun m =>
    (Done tt,
     {| keys := keys m; pressedButtons := pressedButtons m;
        framesSincePress := framesSincePress m;
        command_file := command_file m; response_file := response_file m;
        response_writable := response_writable m; emu_calls := emu_calls m;
        console := console m ++ ["[AI-Pokemon] " ++ message] |}).

Definition set_keys (ks : gset nat) (m : Machine) : Machine :=
  {| keys := ks; pressedButtons := pressedButtons m;
     framesSincePress := framesSincePress m;
     command_file := command_file m; response_file := response_file m;
     response_writable := response_writable m; emu_calls := emu_calls m;
     console := console m |}.

Definition set_pressed (p : gmap nat bool) (m : Machine) : Machine :=
  {| keys := keys m; pressedButtons := p;
     framesSincePress := framesSincePress m;
     command_file := command_file m; response_file := response_file m;
     response_writable := response_writable m; emu_calls := emu_calls m;
     console := console m |}.

Definition set_frames (f : gmap nat nat) (m : Machine) : Machine :=
  {| keys := keys m; pressedButtons := pressedButtons m;
     framesSincePress := f;
     command_file := command_file m; response_file := response_file m;
     response_writable := response_writable m; emu_calls := emu_calls m;
     console := console m |}.

(** [emu:addKey(key)] *)
Definition addKey (key : nat) : Lua unit :=
  fun m => (Done tt, set_keys ({[key]} ∪ keys m) m).

(** [emu:clearKey(key)] *)
Definition clearKey (key : nat) : Lua unit :=
  fun m => (Done tt, set_keys (keys m ∖ {[key]}) m).

Definition emu (call : EmuCall) : Lua unit :=
  fun m =>
    (Done tt,
     {| keys := keys m; pressedButtons := pressedButtons m;
        framesSincePress := framesSincePress m;
        command_file := command_file m; response_file := response_file m;
        response_writable := response_writable m;
        emu_calls := emu_calls m ++ [call]; console := console m |}).

(** [pressedButtons[key] = v] and [framesSincePress[key] = v]; [None] is
    [nil], which removes the entry. *)
Definition assign_pressed (key : nat) (v : option bool) : Lua unit :=
  fun m =>
    (Done tt,
     set_pressed (match v with
                  | Some b => <[key := b]> (pressedButtons m)
                  | None => delete key (pressedButtons m)
                  end) m).

Definition assign_frames (key : nat) (v : option nat) : Lua unit :=
  fun m =>
    (Done tt,
     set_frames (match v with
                 | Some n => <[key := n]> (framesSincePress m)
                 | None => delete key (framesSincePress m)
                 end) m).

(** [readCommand] *)
Definition readCommand : Lua (option string) :=
  fun m =>
    match command_file m with
    | Some content =>
        if String.eqb content "" then (Done None, m)
        else
          (Done (Some (strip_newlines content)),
           {| keys := keys m; pressedButtons := pressedButtons m;
              framesSincePress := framesSincePress m;
              command_file := None; response_file := response_file m;
              response_writable := response_writable m;
              emu_calls := emu_calls m; console := console m |})
    | None => (Done None, m)
    end.

(** [writeResponse] *)
Definition writeResponse (response : string) : Lua unit :=
  fun m =>
    if response_writable m then
      (Done tt,
       {| keys := keys m; pressedButtons := pressedButtons m;
          framesSincePress := framesSincePress m;
          command_file := command_file m; response_file := Some response;
          response_writable := response_writable m;
          emu_calls := emu_calls m; console := console m |})
    else (Done tt, m).

(** [for i = first, last do body(i) end] over keys. *)
Fixpoint for_each {A} (l : list A) (body : A -> Lua unit) : Lua unit :=
  match l with
  | [] => ret tt
  | a :: rest => bind (body a) (fun _ => for_each rest body)
  end.

Section Script.

(** The emulated memory, and Lua's [tonumber] in base 10 and in base 16 on
    the strings that denote integers. *)
Variable read8 : Z -> Z.
Variable tonumber : string -> option Z.
Variable tonumber16 : string -> option Z.

Local Open Scope lua_scope.

(** A value that must not be [nil]: [".."] and [string.upper] raise on
    it. *)
Definition expect {A} (e : LuaError) (v : option A) : Lua A :=
  match v with
  | Some a => ret a
  | None => raise e
  end.

(** The bytes [addr], ..., [addr + len - 1], each as two hex digits. *)
Definition read_bytes (addr len : Z) : list string :=
  map (fun i => format_02X (read8 (addr + Z.of_nat i))) (seq 0 (Z.to_nat len)).

Definition handleCommand (cmd : string) : Lua (option string) :=
  if String.eqb cmd "" then ret None
  else
    let parts := gmatch_fields cmd in
    action <- expect ConcatenateNil (parts !! 0) ;;
    log ("Command: " ++ action) ;;
    if String.eqb action "BUTTON" then
      button <- expect (BadArgument "upper") (parts !! 1) ;;
      let state := default "1"%string (parts !! 2) in
      match lookup_button (upper button) with
      | Some key =>
          (if String.eqb state "1" || String.eqb state "press"
           then addKey key ;; log ("Pressed: " ++ button)
           else clearKey key ;; log ("Released: " ++ button)) ;;
          ret (Some "OK"%string)
      | None => ret (Some "ERROR:Unknown button"%string)
      end
    else if String.eqb action "TAP" then
      button <- expect (BadArgument "upper") (parts !! 1) ;;
      match lookup_button (upper button) with
      | Some key =>
          addKey key ;;
          assign_pressed key (Some true) ;;
          assign_frames key (Some 0) ;;
          log ("Tapped: " ++ button) ;;
          ret (Some "OK"%string)
      | None => ret (Some "ERROR:Unknown button"%string)
      end
    else if String.eqb action "RELEASE_ALL" then
      for_each (seq 0 10)
               (fun i => clearKey i ;; assign_pressed i None) ;;
      ret (Some "OK"%string)
    else if String.eqb action "SCREENSHOT" then
      emu (Screenshot SCREEN_FILE) ;;
      log "Screenshot saved" ;;
      ret (Some ("OK:" ++ SCREEN_FILE)%string)
    else if String.eqb action "READ" then
      text <- expect (BadArgument "tonumber") (parts !! 1) ;;
      let addr :=
        match tonumber16 text with
        | Some a => Some a
        | None => tonumber text
        end in
      let len := default 1%Z (parts !! 2 ≫= tonumber) in
      match addr with
      | Some a => ret (Some ("OK:" ++ concat_strings (read_bytes a len))%string)
      | None => ret (Some "ERROR:Invalid address"%string)
      end
    else if String.eqb action "PAUSE" then
      emu Pause ;; ret (Some "OK:PAUSED"%string)
    else if String.eqb action "RESUME" then
      emu Unpause ;; ret (Some "OK:RESUMED"%string)
    else if String.eqb action "RESET" then
      emu EmuReset ;; ret (Some "OK:RESET"%string)
    else if String.eqb action "SAVE" then
      let slot := default 1%Z (parts !! 1 ≫= tonumber) in
      emu (SaveStateSlot slot) ;;
      log ("Saved state to slot " ++ pretty slot) ;;
      ret (Some ("OK:" ++ pretty slot)%string)
    else if String.eqb action "LOAD" then
      let slot := default 1%Z (parts !! 1 ≫= tonumber) in
      emu (LoadStateSlot slot) ;;
      log ("Loaded state from slot " ++ pretty slot) ;;
      ret (Some ("OK:" ++ pretty slot)%string)
    else if String.eqb action "PING" then
      ret (Some "PONG"%string)
    else ret (Some "ERROR:Unknown command"%string).

(** The body of the auto-release loop for one entry of
    [pressedButtons]. *)
Definition release_entry (entry : nat * bool) : Lua unit :=
  let '(key, pressed) := entry in
  if pressed then
    fun m =>
      let count := S (default 0 (framesSincePress m !! key)) in
      (assign_frames key (Some count) ;;
       if (HOLD_FRAMES <? count)%nat then
         clearKey key ;;
         assign_pressed key None ;;
         assign_frames key None
       else ret tt) m
  else ret tt.

(** [for key, pressed in pairs(pressedButtons)]: the entries the table has
    when the loop starts, in the table's order. *)
Definition release_expired : Lua unit :=
  fun m => for_each (map_to_list (pressedButtons m)) release_entry m.

(** The frame callback. *)
Definition frame : Lua unit :=
  release_expired ;;
  cmd <- readCommand ;;
  match cmd with
  | Some c =>
      response <- handleCommand c ;;
      match response with
      | Some r => writeResponse r
      | None => ret tt
      end
  | None => ret tt
  end.

(** [n] frame callbacks in a row; a Lua error aborts only the callback it
    occurs in. *)
Fixpoint frames (n : nat) (m : Machine) : Machine :=
  match n with
  | O => m
  | S n' => frames n' (snd (frame m))
  end.

End Script.

(** A command file arrives. *)
Definition write_command (content : string) (m : Machine) : Machine :=
  {| keys := keys m; pressedButtons := pressedButtons m;
     framesSincePress := framesSincePress m;
     command_file := Some content; response_file := response_file m;
     response_writable := response_writable m;
     emu_calls := emu_calls m; console := console m |}.

(** [table.concat(fields, "|")] as a sender would build a command. *)
Fixpoint join_fields (fields : list string) : string :=
  match fields with
  | [] => ""
  | [f] => f
  | f :: rest => f ++ String bar (join_fields rest)
  end.

Fixpoint has_bar (s : string) : bool :=
  match s with
  | EmptyString => false
  | String c rest => Ascii.eqb c bar || has_bar rest
  end.

(** A field a sender can put in a command: not empty, no bar in it. *)
Definition plain_field (f : string) : Prop :=
  f <> ""%string /\ has_bar f = false.

(** What the script knows of one key: its entries in the two tables and
    whether the emulator holds it down. *)
Definition key_view (m : Machine) (key : nat) : option bool * option nat * bool :=
  (pressedButtons m !! key, framesSincePress m !! key, bool_decide (key ∈ keys m)).

(** What one pass of the auto-release loop does to a key, read off its
    view. *)
Definition release_view (v : option bool * option nat * bool)
  : option bool * option nat * bool :=
  match v with
  | (Some true, counted, held) =>
      let count := S (default 0 counted) in
      if (HOLD_FRAMES <? count)%nat then (None, None, false)
      else (Some true, Some count, held)
  | _ => v
  end.

(** Everything of the machine that is not about keys. *)
Definition same_outside (m m' : Machine) : Prop :=
  command_file m' = command_file m
  /\ response_file m' = response_file m
  /\ response_writable m' = response_writable m
  /\ emu_calls m' = emu_calls m
  /\ console m' = console m.

(** The command file has been read and removed. *)
Definition consumed (m : Machine) : Machine :=
  {| keys := keys m; pressedButtons := pressedButtons m;
     framesSincePress := framesSincePress m;
     command_file := None; response_file := response_file m;
     response_writable := response_writable m;
     emu_calls := emu_calls m; console := console m |}.

Fixpoint release_views (n : nat) (v : option bool * option nat * bool)
  : option bool * option nat * bool :=
  match n with
  | O => v
  | S n' => release_views n' (release_view v)
  end.

End Controller.

(** * Concrete scenarios used by the examples below *)

Module Scenarios.
Import GameStore.

(** [n] calls of [addLog], the [i]-th one logging step [i] at second [i]. *)
Definition numbered_calls (n : nat) : list (string * LogInput) :=
  map (fun i => ("12:00:" ++ pretty.pretty i,
                 {| entry_agent := "Planning Agent";
                    entry_action := "step";
                    entry_details := pretty.pretty i |}))
      (seq 0 n).

(** A backend that rejects [start] with [400 {detail: 'No ROM loaded'}] and
    answers everything else with an empty [200]. *)
Definition no_rom_backend (req : Dispatcher.Request) : Dispatcher.FetchOutcome :=
  let answer status d :=
    Dispatcher.Resolved
      {| Dispatcher.http_status := status;
         Dispatcher.body :=
           Dispatcher.Parsed
             {| Dispatcher.detail := d; Dispatcher.game_state := None;
                Dispatcher.action_taken := None; Dispatcher.outcome := None |} |} in
  if String.eqb (Dispatcher.path req) "/api/game/start"
  then answer 400%Z (Some "No ROM loaded")
  else answer 200%Z None.

Definition pikachu (current : Z) (percentage : Z) (fainted : bool) : Pokemon :=
  {| nickname := "PIKACHU"; level := 12; current_hp := current; max_hp := 100;
     hp_percentage := percentage; is_fainted := fainted |}.

(** A snapshot whose party is [members]. *)
Definition snapshot (members : list Pokemon) : GameState :=
  {| party := {| party_count := Z.of_nat (length members); pokemon := members;
                 total_hp_percentage := 0 |};
     position := {| x := 5; y := 7; map_bank := 3; map_number := 1 |};
     badges := 0; badge_count := 0; money := 3000; in_battle := false |}.

(** A backend whose [iterate] reports a battle step with a new snapshot. *)
Definition battling_backend (req : Dispatcher.Request) : Dispatcher.FetchOutcome :=
  Dispatcher.Resolved
    {| Dispatcher.http_status := 200;
       Dispatcher.body :=
         Dispatcher.Parsed
           {| Dispatcher.detail := None;
              Dispatcher.game_state := Some (snapshot [pikachu 50 50 false]);
              Dispatcher.action_taken := Some "battle";
              Dispatcher.outcome := Some "won" |} |}.

(** A backend that answers every request with [500] and no JSON body. *)
Definition failing_backend (req : Dispatcher.Request) : Dispatcher.FetchOutcome :=
  Dispatcher.Resolved
    {| Dispatcher.http_status := 500;
       Dispatcher.body := Dispatcher.NotJson (Dispatcher.ErrorObject "Unexpected token") |}.

(** A backend that cannot be reached. *)
Definition unreachable_backend (req : Dispatcher.Request) : Dispatcher.FetchOutcome :=
  Dispatcher.Rejected (Dispatcher.ErrorObject "Failed to fetch").

Definition running_page : Dispatcher.Page :=
  {| Dispatcher.isRunning := true; Dispatcher.isConnected := true;
     Dispatcher.error := None; Dispatcher.store := GameStore.initial |}.

End Scenarios.

(** * Properties of the state store *)

Local Open Scope list_scope.

Section StoreProperties.
Import GameStore.

Lemma slice_last_length {A} (k : nat) (l : list A) :
  length (slice_last k l) = Nat.min (length l) k.
Proof. unfold slice_last. rewrite length_drop. lia. Qed.

Lemma slice_last_short {A} (k : nat) (l : list A) :
  length l <= k -> slice_last k l = l.
Proof.
  intros Hle. unfold slice_last.
  replace (length l - k) with 0 by lia. reflexivity.
Qed.

Lemma slice_last_snoc {A} (k : nat) (l : list A) (a : A) :
  slice_last k l ++ [a] = slice_last (S k) (l ++ [a]).
Proof.
  unfold slice_last. rewrite length_app. simpl.
  replace (length l + 1 - S k) with (length l - k) by lia.
  rewrite drop_app_le by lia. reflexivity.
Qed.

Lemma slice_last_nested {A} (k m : nat) (l : list A) :
  k <= m -> slice_last k (slice_last m l) = slice_last k l.
Proof.
  intros Hkm. unfold slice_last.
  rewrite length_drop, drop_drop. f_equal. lia.
Qed.

(** One call: the previous log is cut to its last 50 entries and the new
    entry is put behind them. *)
Lemma appendLog_length now entry prev :
  length (appendLog now entry prev) = S (Nat.min (length prev) 50).
Proof.
  unfold appendLog. rewrite length_app, slice_last_length. simpl. lia.
Qed.

Lemma appendLog_window now entry prev :
  appendLog now entry prev = slice_last 51 (prev ++ [stamp now entry]).
Proof. unfold appendLog. apply slice_last_snoc. Qed.

Lemma addLogs_snoc calls c st :
  addLogs (calls ++ [c]) st = addLog (fst c) (snd c) (addLogs calls st).
Proof. unfold addLogs. rewrite fold_left_app. reflexivity. Qed.

Lemma stamped_snoc calls c :
  stamped (calls ++ [c]) = stamped calls ++ [stamp (fst c) (snd c)].
Proof. unfold stamped. rewrite map_app. reflexivity. Qed.

(** After at least one call the exposed log is the last 51 entries of the
    earlier log followed by everything appended, in call order. *)
Lemma addLogs_window calls st :
  calls <> [] ->
  logs (addLogs calls st) = slice_last 51 (logs st ++ stamped calls).
Proof.
  induction calls as [|c calls IH] using rev_ind; intros Hne; [congruence|].
  rewrite addLogs_snoc, stamped_snoc. simpl.
  destruct calls as [|c0 calls'].
  - simpl. apply appendLog_window.
  - rewrite IH by discriminate.
    unfold appendLog.
    rewrite slice_last_nested by lia.
    rewrite slice_last_snoc. rewrite app_assoc. reflexivity.
Qed.

(** The bound the code enforces is 51, and it is reached. *)
Lemma addLogs_length_bound calls :
  length (logs (addLogs calls GameStore.initial)) = Nat.min (length calls) 51.
Proof.
  destruct calls as [|c calls]; [reflexivity|].
  rewrite addLogs_window by discriminate.
  rewrite slice_last_length. simpl logs. rewrite app_nil_l.
  unfold stamped. rewrite length_map. reflexivity.
Qed.

(** C1. The log is meant to hold the most recent 50 entries, evicted first
    in first out. The code cuts the previous log to 50 entries before it
    appends: after 51 calls the exposed log has 51 entries, that is every
    entry appended, the oldest included, and not the most recent 50. *)
Theorem addLog_keeps_51_entries :
  let calls := Scenarios.numbered_calls 51 in
  let exposed := logs (addLogs calls GameStore.initial) in
  length exposed = 51
  /\ exposed = stamped calls
  /\ exposed <> slice_last 50 (stamped calls)
  /\ (forall more : nat,
        length (logs (addLogs (Scenarios.numbered_calls (51 + more)) GameStore.initial))
        = 51).
Proof.
  cbv zeta. repeat split.
  - intros Heq. apply (f_equal (@length _)) in Heq.
    vm_compute in Heq. discriminate.
  - intros more. rewrite addLogs_length_bound.
    unfold Scenarios.numbered_calls. rewrite length_map, length_seq. lia.
Qed.

End StoreProperties.

(** * The agent roster *)

Section RosterProperties.
Import GameStore.

Lemma with_status_fields s a :
  name (with_status s a) = name a
  /\ role (with_status s a) = role a
  /\ icon (with_status s a) = icon a
  /\ status (with_status s a) = s.
Proof. repeat split. Qed.

Lemma updateAgents_lookup agentName s (prev : list Agent) i :
  updateAgents agentName s prev !! i =
  (fun a => if String.eqb (name a) agentName then with_status s a else a)
    <$> prev !! i.
Proof. unfold updateAgents. apply list_lookup_fmap. Qed.

Lemma updateAgents_projection {B} (f : Agent -> B) agentName s prev :
  (forall a, f (with_status s a) = f a) ->
  map f (updateAgents agentName s prev) = map f prev.
Proof.
  intros Hf. unfold updateAgents. rewrite map_map.
  apply map_ext. intros a. destruct (String.eqb (name a) agentName); auto.
Qed.

Lemma updateAgents_no_match agentName s prev :
  Forall (fun a => name a <> agentName) prev ->
  updateAgents agentName s prev = prev.
Proof.
  induction 1 as [|a prev Ha _ IH]; [reflexivity|].
  simpl. rewrite IH.
  destruct (String.eqb_spec (name a) agentName); [contradiction|reflexivity].
Qed.

(** C8. [updateAgentStatus] is total; it keeps the store's snapshot and
    log, the roster's length and, position by position, every agent's name,
    role and icon. A name that matches no agent leaves the roster as it is;
    otherwise the agents bearing the name get the new status and nothing
    else about them changes, and every other agent is left as it is. *)
Theorem updateAgentStatus_frame (agentName : string) (s : AgentStatus) (st : Store) :
  let st' := updateAgentStatus agentName s st in
  gameState st' = gameState st
  /\ logs st' = logs st
  /\ length (agents st') = length (agents st)
  /\ map name (agents st') = map name (agents st)
  /\ map role (agents st') = map role (agents st)
  /\ map icon (agents st') = map icon (agents st)
  /\ (Forall (fun a => name a <> agentName) (agents st) -> st' = st)
  /\ (forall i a, agents st !! i = Some a -> name a <> agentName ->
        agents st' !! i = Some a)
  /\ (forall i a, agents st !! i = Some a -> name a = agentName ->
        exists a', agents st' !! i = Some a'
                   /\ status a' = s /\ name a' = name a
                   /\ role a' = role a /\ icon a' = icon a).
Proof.
  cbv zeta. unfold updateAgentStatus. simpl.
  repeat apply conj; try reflexivity.
  - unfold updateAgents. apply length_map.
  - apply updateAgents_projection. reflexivity.
  - apply updateAgents_projection. reflexivity.
  - apply updateAgents_projection. reflexivity.
  - intros Hno. rewrite updateAgents_no_match by assumption.
    destruct st. reflexivity.
  - intros i a Hi Hne. rewrite updateAgents_lookup, Hi. simpl.
    destruct (String.eqb_spec (name a) agentName); [contradiction|reflexivity].
  - intros i a Hi Heq. rewrite updateAgents_lookup, Hi. simpl.
    destruct (String.eqb_spec (name a) agentName); [|contradiction].
    exists (with_status s a). repeat split.
Qed.

(** The theorem at the default roster: an unknown name changes nothing, and
    ["Battle Agent"] (position 2) becomes busy. *)
Lemma updateAgentStatus_frame_witness :
  updateAgentStatus "Unknown Agent" active GameStore.initial = GameStore.initial
  /\ exists a', agents (updateAgentStatus "Battle Agent" busy GameStore.initial) !! 2
                = Some a'
                /\ status a' = busy /\ name a' = "Battle Agent"
                /\ role a' = "Combat Strategist" /\ icon a' = "⚔️".
Proof.
  split.
  - apply (updateAgentStatus_frame "Unknown Agent" active GameStore.initial).
    simpl. repeat constructor; discriminate.
  - apply (proj2 (proj2 (proj2 (proj2 (proj2 (proj2 (proj2 (proj2
             (updateAgentStatus_frame "Battle Agent" busy GameStore.initial)))))))) 2
             {| name := "Battle Agent"; role := "Combat Strategist";
                status := idle; icon := "⚔️" |});
      reflexivity.
Defined.

End RosterProperties.

(** * Properties of the command dispatcher *)

Section DispatcherProperties.
Import GameStore Dispatcher.

Variable transport : Request -> FetchOutcome.
Variable now : string.

Lemma or_else_given (s fallback : string) :
  s <> ""%string -> or_else (Some s) fallback = s.
Proof.
  intros Hs. unfold or_else.
  destruct (String.eqb_spec s ""); [contradiction|reflexivity].
Qed.

(** Unfolds a handler run down to the transport's answer. *)
Ltac run_handler :=
  cbv zeta;
  unfold run, handleStart, handleStop, handleIterate, try_catch, bind, read,
    fetch, json, throw, ret, setError, setIsRunning, addLog, updateGameState,
    console_error, modify, on_page;
  simpl.


(** A rejection whose body is not JSON surfaces the parser's message. *)
Lemma handleStart_unparseable_rejection (p : Page) (r : Response) (m : string) :
  transport start_request = Resolved r ->
  ok r = false ->
  body r = NotJson (ErrorObject m) ->
  let w := run (handleStart transport now) p in
  error (page w) = Some m /\ isRunning (page w) = isRunning p.
Proof.
  intros Ht Hok Hbody. run_handler.
  rewrite Ht. simpl. rewrite Hok. simpl. rewrite Hbody. simpl.
  split; reflexivity.
Qed.

(** An accepted [start] sets the running flag and logs it. *)
Lemma handleStart_accepted (p : Page) (r : Response) :
  transport start_request = Resolved r ->
  ok r = true ->
  let w := run (handleStart transport now) p in
  isRunning (page w) = true
  /\ error (page w) = None
  /\ store (page w) =
     GameStore.addLog now
       {| entry_agent := "System"; entry_action := "started";
          entry_details := "AI Pokemon player started" |} (store p).
Proof.
  intros Ht Hok. run_handler.
  rewrite Ht. simpl. rewrite Hok. simpl.
  repeat split.
Qed.

(** C6. [iterate] on a stopped session returns at its guard: no request is
    issued, nothing is logged to the console and the page, its store
    included, is the one it started from. *)
Theorem handleIterate_stopped_noop (w : World) :
  isRunning (page w) = false ->
  handleIterate transport now w = (Returned tt, w).
Proof.
  intros Hstopped. run_handler. rewrite Hstopped. reflexivity.
Qed.

(** C7. On a running session, when [iterate]'s response parses: a snapshot
    in the response becomes the store's snapshot, replacing the one it
    held, and without one the snapshot stays; an action named in the
    response is logged behind the last 50 entries of the log, stamped with
    the time of the call, under ["Battle Agent"] exactly when the action is
    ["battle"] and under ["Planning Agent"] otherwise, with the response's
    outcome as details, or ["Action completed"] when the outcome is absent
    or empty; without an action the log stays. The roster, the running flag
    and the error are not touched. *)
Theorem handleIterate_folds_result (p : Page) (r : Response) (j : Json) :
  isRunning p = true ->
  transport iterate_request = Resolved r ->
  body r = Parsed j ->
  let w := run (handleIterate transport now) p in
  calls w = [iterate_request]
  /\ isRunning (page w) = true
  /\ error (page w) = error p
  /\ agents (store (page w)) = agents (store p)
  /\ (forall gs, game_state j = Some gs -> gameState (store (page w)) = Some gs)
  /\ (game_state j = None -> gameState (store (page w)) = gameState (store p))
  /\ (forall a, action_taken j = Some a -> a <> ""%string ->
        exists entry,
          logs (store (page w))
          = drop (length (logs (store p)) - 50) (logs (store p)) ++ [entry]
          /\ timestamp entry = now
          /\ action entry = a
          /\ (agent entry = "Battle Agent"%string <-> a = "battle"%string)
          /\ (a <> "battle"%string -> agent entry = "Planning Agent"%string)
          /\ (forall o, outcome j = Some o -> o <> ""%string -> details entry = o)
          /\ (outcome j = None \/ outcome j = Some ""%string ->
              details entry = "Action completed"%string))
  /\ (action_taken j = None \/ action_taken j = Some ""%string ->
      logs (store (page w)) = logs (store p)).
Proof.
  intros Hrun Ht Hbody. run_handler.
  rewrite Hrun. simpl. rewrite Ht. simpl. rewrite Hbody. simpl.
  split; [|split; [|split; [|split; [|split; [|split; [|split]]]]]].
  - destruct (game_state j); simpl;
      (destruct (action_taken j) as [a|]; [destruct (String.eqb a "")|]);
      reflexivity.
  - destruct (game_state j); simpl;
      (destruct (action_taken j) as [a|]; [destruct (String.eqb a "")|]);
      simpl; assumption.
  - destruct (game_state j); simpl;
      (destruct (action_taken j) as [a|]; [destruct (String.eqb a "")|]);
      reflexivity.
  - destruct (game_state j); simpl;
      (destruct (action_taken j) as [a|]; [destruct (String.eqb a "")|]);
      reflexivity.
  - intros gs Hgs. rewrite Hgs. simpl.
    destruct (action_taken j) as [a|]; [destruct (String.eqb a "")|];
      reflexivity.
  - intros Hgs. rewrite Hgs. simpl.
    destruct (action_taken j) as [a|]; [destruct (String.eqb a "")|];
      reflexivity.
  - intros a Ha Hne. rewrite Ha.
    destruct (String.eqb_spec a ""); [contradiction|].
    eexists. split; [destruct (game_state j); reflexivity|].
    simpl. repeat apply conj.
    + reflexivity.
    + reflexivity.
    + destruct (String.eqb_spec a "battle"); [tauto|]. intros Habs. discriminate.
    + intros Heq. subst a. reflexivity.
    + intros Hnb. destruct (String.eqb_spec a "battle"); [contradiction|reflexivity].
    + intros o Ho Hone. rewrite Ho. apply or_else_given. assumption.
    + intros [Ho|Ho]; rewrite Ho; reflexivity.
  - intros [Ha|Ha]; rewrite Ha; simpl; destruct (game_state j); reflexivity.
Qed.

(** A failed [iterate] is only logged to the console. *)
Lemma handleIterate_failure_is_local (p : Page) (e : Thrown) :
  isRunning p = true ->
  transport iterate_request = Rejected e ->
  let w := run (handleIterate transport now) p in
  page w = p /\ console w = ["Iteration error:"%string].
Proof.
  intros Hrun Ht. run_handler. rewrite Hrun. simpl. rewrite Ht. simpl.
  destruct p. split; reflexivity.
Qed.

(** C10. [stop] does not look at the response: whenever the request
    resolves, whatever its status, the running flag becomes false and the
    System entry ["stopped"], stamped with the time of the call, is put
    behind the last 50 entries of the log, the error, the snapshot and the
    roster staying as they were. When the request rejects, the flag and the
    store stay as they were and only the error is set: to the thrown
    error's message, or to ["Failed to stop game"] when the thrown value is
    no [Error]. *)
Theorem handleStop_ignores_status (p : Page) :
  let w := run (handleStop transport now) p in
  calls w = [stop_request]
  /\ (forall r, transport stop_request = Resolved r ->
        isRunning (page w) = false
        /\ error (page w) = error p
        /\ isConnected (page w) = isConnected p
        /\ gameState (store (page w)) = gameState (store p)
        /\ agents (store (page w)) = agents (store p)
        /\ logs (store (page w))
           = drop (length (logs (store p)) - 50) (logs (store p))
             ++ [{| agent := "System"; action := "stopped";
                    details := "AI Pokemon player stopped"; timestamp := now |}])
  /\ (forall e, transport stop_request = Rejected e ->
        isRunning (page w) = isRunning p
        /\ store (page w) = store p
        /\ isConnected (page w) = isConnected p
        /\ (forall m, e = ErrorObject m -> error (page w) = Some m)
        /\ (e = NonError -> error (page w) = Some "Failed to stop game"%string)).
Proof.
  run_handler. destruct (transport stop_request) as [e|r]; simpl.
  - repeat apply conj; try reflexivity.
    + intros r Hr. discriminate.
    + intros e' He. injection He as <-. repeat apply conj; try reflexivity.
      * intros m ->. reflexivity.
      * intros ->. reflexivity.
  - repeat apply conj; try reflexivity.
    + intros r' Hr. repeat apply conj; reflexivity.
    + intros e He. discriminate.
Qed.

End DispatcherProperties.

(** ** The theorems on mock backends *)

Section DispatcherWitnesses.
Import GameStore Dispatcher.



Lemma handleIterate_stopped_noop_witness :
  handleIterate Scenarios.battling_backend "12:00:00"
    {| page := initial_page; calls := []; console := [] |}
  = (Returned tt, {| page := initial_page; calls := []; console := [] |}).
Proof.
  apply (handleIterate_stopped_noop Scenarios.battling_backend "12:00:00"
           {| page := initial_page; calls := []; console := [] |}).
  reflexivity.
Defined.

Lemma handleIterate_folds_result_witness :
  let w := run (handleIterate Scenarios.battling_backend "12:00:00")
               Scenarios.running_page in
  gameState (store (page w)) = Some (Scenarios.snapshot [Scenarios.pikachu 50 50 false])
  /\ logs (store (page w))
     = [{| agent := "Battle Agent"; action := "battle"; details := "won";
           timestamp := "12:00:00" |}].
Proof.
  cbv zeta.
  destruct (handleIterate_folds_result Scenarios.battling_backend "12:00:00"
              Scenarios.running_page _ _ eq_refl eq_refl eq_refl)
    as (_ & _ & _ & _ & Hsnapshot & _ & Hlog & _).
  split; [apply Hsnapshot; reflexivity|].
  destruct (Hlog "battle"%string eq_refl)
    as (entry & Hlogs & Htime & Haction & Hagent & _ & Hout & _);
    [discriminate|].
  rewrite Hlogs.
  assert (Hdetails : details entry = "won"%string)
    by (apply (Hout "won"%string); [reflexivity|discriminate]).
  assert (Hbattle : agent entry = "Battle Agent"%string)
    by (apply Hagent; reflexivity).
  destruct entry as [ag ac de ti]. simpl in Htime, Haction, Hdetails, Hbattle.
  subst. reflexivity.
Defined.

(** [stop] against a backend answering 500, and against one that cannot be
    reached. *)
Lemma handleStop_ignores_status_witness :
  (let w := run (handleStop Scenarios.failing_backend "12:00:00")
                Scenarios.running_page in
   isRunning (page w) = false
   /\ logs (store (page w))
      = [{| agent := "System"; action := "stopped";
            details := "AI Pokemon player stopped"; timestamp := "12:00:00" |}])
  /\ (let w := run (handleStop Scenarios.unreachable_backend "12:00:00")
                   Scenarios.running_page in
      isRunning (page w) = true
      /\ logs (store (page w)) = []
      /\ error (page w) = Some "Failed to fetch"%string).
Proof.
  split.
  - cbv zeta.
    destruct (proj1 (proj2 (handleStop_ignores_status Scenarios.failing_backend
                              "12:00:00" Scenarios.running_page)) _ eq_refl)
      as (Hrun & _ & _ & _ & _ & Hlogs).
    split; [exact Hrun | exact Hlogs].
  - cbv zeta.
    destruct (proj2 (proj2 (handleStop_ignores_status Scenarios.unreachable_backend
                              "12:00:00" Scenarios.running_page)) _ eq_refl)
      as (Hrun & Hstore & _ & Herr & _).
    split; [exact Hrun|]. split; [rewrite Hstore; reflexivity|].
    apply (Herr "Failed to fetch"%string). reflexivity.
Defined.

End DispatcherWitnesses.

(** * Properties of the screen poll *)

Section ScreenPollProperties.
Import GameDisplay.

(** Stopping clears the interval and blanks the screen at once. *)
Lemma render_false_stops (d : Display) :
  isRunning d = true ->
  let d' := render false d in
  isRunning d' = false /\ interval d' = None /\ screenImage d' = None
  /\ issued d' = issued d /\ inflight d' = inflight d.
Proof.
  intros Hrun. cbv zeta. unfold render. rewrite Hrun. simpl.
  repeat apply conj; reflexivity.
Qed.

Lemma stopped_step (e : Event) (d d' : Display) :
  interval d = None -> keeps_stopped e -> step e d = Some d' ->
  interval d' = None /\ issued d' = issued d.
Proof.
  intros Hint Hkeep Hstep. destruct e as [[|]| |o]; simpl in *.
  - contradiction.
  - injection Hstep as <-. unfold render.
    destruct (isRunning d); simpl; auto.
  - rewrite Hint in Hstep. discriminate.
  - destruct (inflight d) as [|n]; [discriminate|].
    injection Hstep as <-.
    destruct o as [|[|] [image|]]; simpl; auto.
Qed.

(** While the flag stays false the poll issues no request: the interval is
    gone, so no tick can be delivered, and neither a late answer nor a
    further render issues one. *)
Lemma stopped_issues_nothing (es : list Event) (d d' : Display) :
  interval d = None -> Forall keeps_stopped es -> run es d = Some d' ->
  interval d' = None /\ issued d' = issued d.
Proof.
  revert d. induction es as [|e es IH]; intros d Hint Hall Hrun; simpl in Hrun.
  - injection Hrun as <-. auto.
  - inversion Hall as [|? ? Hhead Htail]; subst.
    destruct (step e d) as [d1|] eqn:Hstep; [|discriminate].
    destruct (stopped_step e d d1 Hint Hhead Hstep) as [Hint1 Hiss1].
    destruct (IH d1 Hint1 Htail Hrun) as [Hint' Hiss'].
    split; [assumption|congruence].
Qed.

(** C4. The poll does stop with the flag, but a result already in flight is
    not discarded: start, stop while the first request is unanswered, then
    let the answer arrive. The stop blanks the screen, and the late answer
    puts an image back although the session is stopped. *)
Theorem late_screen_result_restores_display :
  let answer := Arrive (ScreenResponse true (Some "iVBORw0KGgo="%string)) in
  (exists d0, run [Render true; Render false] mounted = Some d0
              /\ isRunning d0 = false /\ interval d0 = None
              /\ screenImage d0 = None /\ inflight d0 = 1 /\ issued d0 = 1)
  /\ (exists d, run [Render true; Render false; answer] mounted = Some d
                /\ isRunning d = false /\ interval d = None /\ issued d = 1
                /\ screenImage d = Some "data:image/png;base64,iVBORw0KGgo="%string).
Proof.
  cbv zeta. split; eexists; (split; [reflexivity|]); repeat apply conj; reflexivity.
Qed.

End ScreenPollProperties.

(** * Properties of the connection manager *)

Section ConnectionProperties.
Import Connection.

(** ** The guard of [connect] *)

Lemma connect_when_open (w : World) :
  current_is_open w = true -> connect w = w.
Proof. intros Hopen. unfold connect. rewrite Hopen. reflexivity. Qed.

Lemma connect_otherwise (w : World) :
  current_is_open w = false -> url_ok w = true ->
  let w' := connect w in
  connectionStatus w' = connecting
  /\ sockets w' = sockets w ++ [CONNECTING]
  /\ wsRef w' = Some (length (sockets w))
  /\ timers w' = timers w.
Proof.
  intros Hopen Hurl. cbv zeta. unfold connect. rewrite Hopen. simpl.
  rewrite Hurl. repeat apply conj; reflexivity.
Qed.

(** C3. [connect] is guarded only against an open socket. Called while the
    current socket is still connecting, it constructs a second socket and
    moves [wsRef] to it; the first one is neither closed nor forgotten by
    the browser, so two connections are live. *)
Theorem connect_while_connecting_opens_second_socket :
  let w1 := connect (initial true) in
  let w2 := connect w1 in
  connectionStatus w1 = connecting
  /\ current_readyState w1 = Some CONNECTING
  /\ sockets w1 = [CONNECTING] /\ wsRef w1 = Some 0
  /\ sockets w2 = [CONNECTING; CONNECTING] /\ wsRef w2 = Some 1
  /\ live w2 = 2
  /\ w2 <> w1.
Proof.
  cbv zeta. repeat apply conj; try (vm_compute; reflexivity).
  intros Heq. apply (f_equal wsRef) in Heq. vm_compute in Heq. discriminate.
Qed.

(** A consequence: both sockets answer their close with a timer of their
    own, and the ref remembers only the second. *)
Lemma duplicate_sockets_duplicate_timers :
  exists w, run [CallConnect; CallConnect; Close 0; Close 1] (initial true) = Some w
            /\ length (timers w) = 2
            /\ reconnectTimeoutRef w = Some 2.
Proof. eexists. split; [vm_compute; reflexivity|]. split; reflexivity. Qed.

(** ** Closing and the backoff *)

Lemma onclose_schedules (w : World) :
  let w' := onclose w in
  connectionStatus w' = disconnected
  /\ timers w' = timers w ++ [{| handle := next_handle w;
                                 due := (clock w + RECONNECT_DELAY)%N |}]
  /\ reconnectTimeoutRef w' = Some (next_handle w)
  /\ sockets w' = sockets w.
Proof. cbv zeta. unfold onclose. simpl. repeat apply conj; reflexivity. Qed.

(** A close moves the hook to [disconnected] and arms one timer, due after
    the backoff. *)
Lemma close_schedules_reconnect (w : World) (i : nat) (s : ReadyState) :
  sockets w !! i = Some s -> s <> CLOSED ->
  exists w', step (Close i) w = Some w'
             /\ connectionStatus w' = disconnected
             /\ timers w' = timers w ++ [{| handle := next_handle w;
                                            due := (clock w + RECONNECT_DELAY)%N |}]
             /\ reconnectTimeoutRef w' = Some (next_handle w).
Proof.
  intros Hi Hs. simpl. rewrite Hi.
  destruct s; try contradiction; eexists; (split; [reflexivity|]);
    repeat apply conj; reflexivity.
Qed.

(** The timer cannot fire before it is due. *)
Lemma fire_waits_for_backoff (w : World) (h : nat) (t : Timer) :
  find_timer h w = Some t -> (clock w < due t)%N -> step (Fire h) w = None.
Proof.
  intros Hfind Hearly. simpl. rewrite Hfind.
  destruct (N.leb_spec (due t) (clock w)); [lia|reflexivity].
Qed.

(** ** The automatic loop keeps one attempt at a time *)

Lemma live_sockets_insert (l : list ReadyState) (i : nat) (s s' : ReadyState) :
  l !! i = Some s ->
  live_sockets (<[i := s']> l) + (if decide (s = CLOSED) then 0 else 1)
  = live_sockets l + (if decide (s' = CLOSED) then 0 else 1).
Proof.
  unfold live_sockets. revert i.
  induction l as [|a l IH]; intros i Hi; [discriminate|].
  destruct i as [|i]; simpl in Hi |- *.
  - injection Hi as ->. rewrite !filter_cons.
    repeat case_decide; simpl; try contradiction; lia.
  - specialize (IH i Hi). rewrite !filter_cons.
    repeat case_decide; simpl in *; lia.
Qed.

Lemma live_sockets_snoc (l : list ReadyState) (s : ReadyState) :
  s <> CLOSED -> live_sockets (l ++ [s]) = S (live_sockets l).
Proof.
  intros Hs. unfold live_sockets.
  rewrite filter_app, length_app, filter_cons_True by assumption.
  simpl. lia.
Qed.

Lemma clearTimeout_found (h : nat) (w : World) (t : Timer) :
  find_timer h w = Some t ->
  length (timers (clearTimeout h w)) < length (timers w).
Proof.
  unfold find_timer, clearTimeout. simpl.
  induction (timers w) as [|a l IH]; intros Hfind; [discriminate|].
  simpl in Hfind. rewrite filter_cons.
  destruct (Nat.eqb_spec (handle a) h) as [Heq|Hne].
  - case_decide; [contradiction|].
    pose proof (length_filter (fun t0 => handle t0 <> h) l). simpl. lia.
  - case_decide; [|contradiction]. simpl. specialize (IH Hfind). lia.
Qed.

Lemma connect_budget (w : World) :
  live (connect w) <= S (live w) /\ timers (connect w) = timers w.
Proof.
  unfold connect, live.
  destruct (current_is_open w); [split; [lia|reflexivity]|].
  simpl. destruct (url_ok w); simpl.
  - rewrite live_sockets_snoc by discriminate. split; [lia|reflexivity].
  - split; [lia|reflexivity].
Qed.

Lemma close_budget (w : World) (i : nat) (s : ReadyState) :
  sockets w !! i = Some s -> s <> CLOSED ->
  S (live_sockets (<[i := CLOSED]> (sockets w))) = live w.
Proof.
  intros Hi Hs. unfold live.
  pose proof (live_sockets_insert _ _ _ CLOSED Hi) as Hins.
  repeat case_decide; try contradiction; lia.
Qed.

Lemma automatic_step_preserves (e : Event) (w w' : World) :
  one_attempt w -> automatic e -> step e w = Some w' -> one_attempt w'.
Proof.
  unfold one_attempt. intros Hinv Hauto Hstep.
  destruct e as [| |i|i f|i|i|h|ms]; simpl in Hauto, Hstep; try contradiction.
  - (* Open *)
    destruct (sockets w !! i) as [s|] eqn:Hi; [|discriminate].
    destruct s; try discriminate. injection Hstep as <-.
    unfold live. simpl.
    pose proof (live_sockets_insert _ _ _ OPEN Hi) as Hins.
    repeat case_decide; try discriminate. unfold live in Hinv. lia.
  - (* Message *)
    destruct (sockets w !! i) as [s|] eqn:Hi; [|discriminate].
    destruct s; try discriminate; injection Hstep as <-;
      destruct f; exact Hinv.
  - (* Failure *)
    destruct (sockets w !! i) as [s|] eqn:Hi; [|discriminate].
    assert (Hlive : s <> CLOSED -> S (live_sockets (<[i := CLOSED]> (sockets w))) = live w)
      by (intros Hs; eapply close_budget; eauto).
    destruct s; try discriminate; injection Hstep as <-;
      unfold live; simpl; rewrite length_app; simpl;
      specialize (Hlive ltac:(discriminate)); lia.
  - (* Close *)
    destruct (sockets w !! i) as [s|] eqn:Hi; [|discriminate].
    assert (Hlive : s <> CLOSED -> S (live_sockets (<[i := CLOSED]> (sockets w))) = live w)
      by (intros Hs; eapply close_budget; eauto).
    destruct s; try discriminate; injection Hstep as <-;
      unfold live; simpl; rewrite length_app; simpl;
      specialize (Hlive ltac:(discriminate)); lia.
  - (* Fire *)
    destruct (find_timer h w) as [t|] eqn:Hfind; [|discriminate].
    destruct (due t <=? clock w)%N; [|discriminate]. injection Hstep as <-.
    pose proof (clearTimeout_found h w t Hfind) as Hless.
    destruct (connect_budget (clearTimeout h w)) as [Hlive Htimers].
    rewrite Htimers. unfold live in *. simpl in *. lia.
  - (* Advance *)
    injection Hstep as <-. exact Hinv.
Qed.

Lemma automatic_run_preserves (es : list Event) (w w' : World) :
  one_attempt w -> Forall automatic es -> run es w = Some w' -> one_attempt w'.
Proof.
  revert w. induction es as [|e es IH]; intros w Hinv Hall Hrun; simpl in Hrun.
  - injection Hrun as <-. exact Hinv.
  - inversion Hall as [|? ? Hhead Htail]; subst.
    destruct (step e w) as [w1|] eqn:Hstep; [|discriminate].
    apply (IH w1);
      [exact (automatic_step_preserves e w w1 Hinv Hhead Hstep)|exact Htail|exact Hrun].
Qed.

(** From the mount on, as long as nobody calls [connect] or [disconnect],
    at most one reconnection timer is pending at any instant, and never
    while a socket is live. *)
Lemma automatic_loop_one_timer (es : list Event) (w : World) :
  Forall automatic es -> run es mounted = Some w ->
  length (timers w) <= 1 /\ (live w = 1 -> timers w = []).
Proof.
  intros Hall Hrun.
  assert (Hinv : one_attempt w).
  { eapply automatic_run_preserves; [|exact Hall|exact Hrun].
    unfold one_attempt. vm_compute. lia. }
  unfold one_attempt in Hinv. split; [lia|].
  intros Hlive. destruct (timers w); [reflexivity|simpl in Hinv; lia].
Qed.

(** ** A transport that closes right after opening *)

Lemma run_app (es1 es2 : list Event) (w : World) :
  run (es1 ++ es2) w
  = match run es1 w with Some w' => run es2 w' | None => None end.
Proof.
  revert w. induction es1 as [|e es1 IH]; intros w; simpl; [reflexivity|].
  destruct (step e w); [apply IH|reflexivity].
Qed.

Lemma closed_then_lookup (n : nat) (s : ReadyState) :
  (replicate n CLOSED ++ [s]) !! n = Some s.
Proof. apply list_lookup_middle. rewrite length_replicate. reflexivity. Qed.

Lemma closed_then_insert (n : nat) (s s' : ReadyState) :
  <[n := s']> (replicate n CLOSED ++ [s]) = replicate n CLOSED ++ [s'].
Proof.
  rewrite insert_app_r_alt by (rewrite length_replicate; lia).
  rewrite length_replicate, Nat.sub_diag. reflexivity.
Qed.

Ltac hook_fields :=
  cbn [onopen onclose onerror setTimeout setConnectionStatus set_sockets
       set_wsRef set_timers console_error
       sockets connectionStatus lastMessage wsRef reconnectTimeoutRef url_ok
       timers next_handle clock console handle due app].

(** One round: the socket opens and closes, the hook is [disconnected] with
    one timer, and when the timer fires after the backoff the hook is
    [connecting] again, on a fresh socket, with no timer left. *)
Lemma flapping_round_reconnects (n : nat) (c : N) :
  run (flapping_round n) (awaiting n c)
  = Some (awaiting (S n) (c + RECONNECT_DELAY)).
Proof.
  unfold flapping_round, awaiting.
  cbn [run step sockets]. rewrite closed_then_lookup, closed_then_insert.
  hook_fields. rewrite closed_then_lookup, closed_then_insert. hook_fields.
  unfold find_timer. hook_fields. cbn [List.find handle].
  rewrite Nat.eqb_refl. hook_fields. rewrite N.leb_refl.
  unfold clearTimeout. hook_fields.
  rewrite filter_cons_False by (cbn; intros Hne; apply Hne; reflexivity).
  rewrite filter_nil.
  unfold connect, current_is_open, current_readyState. hook_fields.
  rewrite closed_then_lookup. hook_fields. cbn [url_ok].
  unfold set_wsRef, set_sockets, setConnectionStatus, set_timers. hook_fields.
  rewrite length_app, length_replicate, <- replicate_S_end.
  simpl length. rewrite Nat.add_1_r. reflexivity.
Qed.

(** The loop goes on for as many rounds as the transport flaps. *)
Lemma flapping_rounds_reconnect (count first : nat) (c : N) :
  run (flapping_rounds first count) (awaiting first c)
  = Some (awaiting (first + count) (c + RECONNECT_DELAY * N.of_nat count)).
Proof.
  revert first c. induction count as [|count IH]; intros first c.
  - simpl. rewrite Nat.add_0_r, N.mul_0_r, N.add_0_r. reflexivity.
  - cbn [flapping_rounds]. rewrite run_app, flapping_round_reconnects, IH.
    f_equal. f_equal; lia.
Qed.

Lemma flapping_forever (count : nat) :
  run (flapping_rounds 0 count) mounted
  = Some (awaiting count (RECONNECT_DELAY * N.of_nat count)).
Proof. apply (flapping_rounds_reconnect count 0 0%N). Qed.

(** ** [disconnect] *)

(** [disconnect] cancels the timer the ref remembers. *)
Lemma disconnect_clears_remembered_timer (w : World) (h : nat) :
  reconnectTimeoutRef w = Some h -> h <> 0 ->
  find_timer h (disconnect w) = None.
Proof.
  intros Href Hpos. unfold disconnect. rewrite Href.
  destruct (Nat.eqb_spec h 0) as [|_]; [contradiction|].
  assert (Hgone : find_timer h (clearTimeout h w) = None).
  { unfold find_timer, clearTimeout. simpl.
    induction (timers w) as [|a l IH]; [reflexivity|].
    rewrite filter_cons. case_decide as Hdec; [|exact IH].
    simpl. destruct (Nat.eqb_spec (handle a) h); [contradiction|exact IH]. }
  assert (Htimers : forall i, timers (ws_close i (clearTimeout h w))
                              = timers (clearTimeout h w)).
  { intros i. unfold ws_close.
    destruct (sockets (clearTimeout h w) !! i) as [[| | |]|]; reflexivity. }
  destruct (wsRef (clearTimeout h w)) as [i|]; [|exact Hgone].
  unfold find_timer in *. simpl. rewrite Htimers. exact Hgone.
Qed.

(** C2. The reconnection loop itself behaves as claimed (see
    [flapping_round_reconnects] and [automatic_loop_one_timer]), but an
    explicit [disconnect] does not end it. [disconnect] closes the socket
    with its [onclose] handler still attached: when the close event
    arrives the handler arms a new timer, although [wsRef] is already
    cleared, and when that timer fires [connect] opens a new socket. *)
Theorem reconnect_fires_after_disconnect :
  let before := [CallConnect; Open 0; CallDisconnect] in
  (exists w, run before (initial true) = Some w
             /\ wsRef w = None /\ timers w = [] /\ sockets w = [CLOSING])
  /\ (exists w, run (before ++ [Close 0]) (initial true) = Some w
                /\ connectionStatus w = disconnected
                /\ timers w = [{| handle := 1; due := RECONNECT_DELAY |}])
  /\ (exists w, run (before ++ [Close 0; Advance RECONNECT_DELAY; Fire 1])
                    (initial true) = Some w
                /\ connectionStatus w = connecting
                /\ sockets w = [CLOSED; CONNECTING]
                /\ wsRef w = Some 1).
Proof.
  cbv zeta. repeat apply conj; eexists;
    (split; [vm_compute; reflexivity|]); repeat apply conj; reflexivity.
Qed.

End ConnectionProperties.

(** * Properties of the party display *)

Section PartyDisplayProperties.
Import GameStore PartyStatus Home.

Lemma route_game_state (now : string) (gs : GameState) (c : Cells) :
  route now (game_state_message gs) c
  = {| snapshot := Snapshot gs; roster := roster c; entries := entries c |}.
Proof. reflexivity. Qed.

Lemma displayed_after_game_state (now : string) (gs : GameState) (c : Cells) :
  displayed_party (route now (game_state_message gs) c)
  = imap card (pokemon (party gs)).
Proof. reflexivity. Qed.

(** On a store and a message of the declared shapes the effect is the
    store's own operation. *)
Lemma route_typed_game_state (now : string) (gs : GameState) (st : Store) :
  route now (game_state_message gs) (cells_of st)
  = cells_of (GameStore.updateGameState gs st).
Proof. reflexivity. Qed.

Lemma route_typed_agent_action (now : string) (entry : LogInput) (st : Store) :
  route now (agent_action_message entry) (cells_of st)
  = cells_of (GameStore.addLog now entry st).
Proof.
  unfold route, cells_of, log_data, GameStore.addLog, appendLog, slice_last. simpl.
  f_equal. rewrite map_app, length_map, <- skipn_map. reflexivity.
Qed.

(** A [game_state] message without [data] leaves no party to display, and
    an [agent_action] message without [data] is logged with a time only. *)
Lemma route_game_state_without_data (now : string) (c : Cells) :
  let m := {| Connection.type := "game_state"; Connection.data := Connection.NoData |} in
  snapshot (route now m c) = NoSnapshot /\ displayed_party (route now m c) = [].
Proof. split; reflexivity. Qed.

Lemma route_agent_action_without_data (now : string) (c : Cells) :
  let m := {| Connection.type := "agent_action"; Connection.data := Connection.NoData |} in
  entries (route now m c) = drop (length (entries c) - 50) (entries c) ++ [Fieldless now].
Proof. reflexivity. Qed.

(** A field of the card that is copied from the party member is the same
    list on both sides, whatever the position in the grid. *)
Lemma map_imap_copied {B} (proj : Card -> B) (field : Pokemon -> B)
      (g : nat -> Pokemon -> Card) (l : list Pokemon) :
  (forall i p, proj (g i p) = field p) ->
  map proj (imap g l) = map field l.
Proof.
  revert g. induction l as [|p l IH]; intros g Hcopy; [reflexivity|].
  simpl. rewrite Hcopy. f_equal. apply IH. intros i q. apply Hcopy.
Qed.



(** The store and the display compute nothing from the hit points: each
    party member of a [game_state] message is displayed with the
    [hp_percentage], the [is_fainted] flag and the hit points the message
    carries, in party order. *)
Lemma party_display_copies_snapshot (now : string) (gs : GameState) (c : Cells) :
  let shown := displayed_party (route now (game_state_message gs) c) in
  map bar_width shown = map hp_percentage (pokemon (party gs))
  /\ map shown_fainted shown = map is_fainted (pokemon (party gs))
  /\ map shown_hp shown = map (fun p => (current_hp p, max_hp p)) (pokemon (party gs)).
Proof.
  cbv zeta. rewrite displayed_after_game_state.
  split; [|split]; apply map_imap_copied; reflexivity.
Qed.




End PartyDisplayProperties.

(** * Further properties of the state store *)

Section StoreSequences.
Import GameStore StoreOps.

(** X1. After at least one [addLog] call the exposed log is the last 51
    entries of the earlier log followed by the appended entries, in call
    order; it never holds more than 51 entries. *)
Theorem addLog_sequence_window (calls : list (string * LogInput)) (st : Store) :
  calls <> [] ->
  logs (addLogs calls st) = slice_last 51 (logs st ++ stamped calls)
  /\ length (logs (addLogs calls st)) <= 51.
Proof.
  intros Hne. rewrite addLogs_window by assumption.
  split; [reflexivity|]. rewrite slice_last_length. lia.
Qed.

Lemma addLog_sequence_window_witness :
  logs (addLogs (Scenarios.numbered_calls 60) GameStore.initial)
  = slice_last 51 (stamped (Scenarios.numbered_calls 60))
  /\ length (logs (addLogs (Scenarios.numbered_calls 60) GameStore.initial)) <= 51.
Proof.
  apply (addLog_sequence_window (Scenarios.numbered_calls 60) GameStore.initial).
  discriminate.
Defined.

Lemma apply_ops_snoc ops op st :
  apply_ops (ops ++ [op]) st = apply_op op (apply_ops ops st).
Proof. unfold apply_ops. rewrite fold_left_app. reflexivity. Qed.

Lemma apply_ops_app ops1 ops2 st :
  apply_ops (ops1 ++ ops2) st = apply_ops ops2 (apply_ops ops1 st).
Proof. unfold apply_ops. apply fold_left_app. Qed.

Lemma other_ops_keep_snapshot ops st :
  Forall (fun op => ~ is_snapshot_update op) ops ->
  gameState (apply_ops ops st) = gameState st.
Proof.
  induction ops as [|op ops IH] using rev_ind; intros Hall; [reflexivity|].
  apply Forall_app in Hall as [Hops Hop]. inversion Hop as [|? ? Hlast _]; subst.
  rewrite apply_ops_snoc.
  destruct op; simpl in *; try (apply IH; assumption). tauto.
Qed.

(** X2. Whatever was applied before, and whatever log or roster operations
    follow, the store exposes the snapshot of the most recent
    [updateGameState] call, whole. *)
Theorem latest_snapshot_wins (before after : list StoreOp) (gs : GameState) (st : Store) :
  Forall (fun op => ~ is_snapshot_update op) after ->
  gameState (apply_ops (before ++ UpdateGameState gs :: after) st) = Some gs.
Proof.
  intros Hafter. rewrite apply_ops_app.
  change (UpdateGameState gs :: after) with ([UpdateGameState gs] ++ after).
  rewrite apply_ops_app, other_ops_keep_snapshot by assumption.
  reflexivity.
Qed.

Lemma latest_snapshot_wins_witness :
  gameState
    (apply_ops
       ([UpdateGameState (Scenarios.snapshot [Scenarios.pikachu 50 50 false]);
         AddLog "12:00:00" {| entry_agent := "System"; entry_action := "started";
                              entry_details := "" |}]
        ++ UpdateGameState (Scenarios.snapshot [Scenarios.pikachu 0 0 true])
        :: [UpdateAgentStatus "Battle Agent" busy; ClearLogs])
       GameStore.initial)
  = Some (Scenarios.snapshot [Scenarios.pikachu 0 0 true]).
Proof.
  apply latest_snapshot_wins.
  repeat constructor; simpl; tauto.
Defined.

(** X3. No sequence of store operations inserts, removes, renames or
    reorders an agent: the roster keeps its names, roles and icons,
    position by position, and so its length. *)
Theorem roster_is_fixed (ops : list StoreOp) (st : Store) :
  map name (agents (apply_ops ops st)) = map name (agents st)
  /\ map role (agents (apply_ops ops st)) = map role (agents st)
  /\ map icon (agents (apply_ops ops st)) = map icon (agents st)
  /\ length (agents (apply_ops ops st)) = length (agents st).
Proof.
  induction ops as [|op ops IH] using rev_ind.
  - repeat split.
  - rewrite apply_ops_snoc. destruct IH as (Hn & Hr & Hi & Hl).
    destruct op; simpl; try (repeat apply conj; assumption).
    rewrite !updateAgents_projection by reflexivity.
    repeat apply conj; try assumption.
    unfold updateAgents. rewrite length_map. exact Hl.
Qed.

(** X4. No sequence of store operations lets the log grow beyond 51
    entries, or beyond what it held to begin with. *)
Theorem log_stays_bounded (ops : list StoreOp) (st : Store) :
  length (logs (apply_ops ops st)) <= Nat.max (length (logs st)) 51.
Proof.
  induction ops as [|op ops IH] using rev_ind; [simpl; lia|].
  rewrite apply_ops_snoc.
  destruct op; simpl; try exact IH; [|lia].
  rewrite appendLog_length. lia.
Qed.

(** X5. Status updates for different agents are independent: applied in
    either order they give the same store. *)
Theorem updateAgentStatus_commutes (n1 n2 : string) (s1 s2 : AgentStatus) (st : Store) :
  n1 <> n2 ->
  updateAgentStatus n1 s1 (updateAgentStatus n2 s2 st)
  = updateAgentStatus n2 s2 (updateAgentStatus n1 s1 st).
Proof.
  intros Hne. unfold updateAgentStatus. simpl. f_equal.
  unfold updateAgents. rewrite !map_map. apply map_ext. intros a.
  destruct (String.eqb_spec (name a) n1) as [H1|H1];
    destruct (String.eqb_spec (name a) n2) as [H2|H2]; simpl;
    try (rewrite (proj2 (String.eqb_eq _ _) H1));
    try (rewrite (proj2 (String.eqb_eq _ _) H2));
    try (rewrite (proj2 (String.eqb_neq _ _) H1));
    try (rewrite (proj2 (String.eqb_neq _ _) H2));
    try reflexivity.
  congruence.
Qed.

Lemma updateAgentStatus_commutes_witness :
  updateAgentStatus "Battle Agent" busy
    (updateAgentStatus "Memory Agent" active GameStore.initial)
  = updateAgentStatus "Memory Agent" active
      (updateAgentStatus "Battle Agent" busy GameStore.initial).
Proof.
  apply (updateAgentStatus_commutes "Battle Agent" "Memory Agent").
  discriminate.
Defined.

(** X6. A second status update for the same name overwrites the first:
    only the last status given to a name is kept. *)
Theorem updateAgentStatus_overwrites (n : string) (s1 s2 : AgentStatus) (st : Store) :
  updateAgentStatus n s2 (updateAgentStatus n s1 st) = updateAgentStatus n s2 st.
Proof.
  unfold updateAgentStatus. simpl. f_equal.
  unfold updateAgents. rewrite map_map. apply map_ext. intros a.
  destruct (String.eqb_spec (name a) n) as [Heq|Hne]; simpl.
  - rewrite (proj2 (String.eqb_eq _ _) Heq). reflexivity.
  - rewrite (proj2 (String.eqb_neq _ _) Hne). reflexivity.
Qed.

(** X7. [clearLogs] forgets the whole log and nothing else: what is
    exposed afterwards is the last 51 of the entries appended since, and
    the snapshot and the roster are those from before. *)
Theorem clearLogs_starts_over (calls : list (string * LogInput)) (st : Store) :
  logs (addLogs calls (clearLogs st)) = slice_last 51 (stamped calls)
  /\ gameState (addLogs calls (clearLogs st)) = gameState st
  /\ agents (addLogs calls (clearLogs st)) = agents st.
Proof.
  split.
  - destruct calls as [|c calls]; [reflexivity|].
    rewrite addLogs_window by discriminate. reflexivity.
  - induction calls as [|c calls IH] using rev_ind; [split; reflexivity|].
    rewrite addLogs_snoc. exact IH.
Qed.

End StoreSequences.

(** * Further properties of the connection manager *)

Section ConnectionSequences.
Import Connection Outbound.

Lemma Forall_filter_keeps {A} (P : A -> Prop) (Q : A -> Prop)
      `{forall x, Decision (Q x)} (l : list A) :
  Forall P l -> Forall P (filter Q l).
Proof.
  rewrite !Forall_forall. intros Hall x Hx.
  apply list_elem_of_filter in Hx as [_ Hx]. auto.
Qed.

Lemma connect_keeps (w : World) :
  timers (connect w) = timers w
  /\ next_handle (connect w) = next_handle w
  /\ reconnectTimeoutRef (connect w) = reconnectTimeoutRef w
  /\ clock (connect w) = clock w.
Proof.
  unfold connect. destruct (current_is_open w); [repeat split|].
  simpl. destruct (url_ok w); repeat split.
Qed.

Lemma ws_close_keeps (i : nat) (w : World) :
  timers (ws_close i w) = timers w
  /\ next_handle (ws_close i w) = next_handle w
  /\ wsRef (ws_close i w) = wsRef w.
Proof.
  unfold ws_close. destruct (sockets w !! i) as [[| | |]|]; repeat split.
Qed.

Lemma disconnect_timers (w : World) :
  next_handle (disconnect w) = next_handle w
  /\ (timers (disconnect w) = timers w
      \/ exists h, reconnectTimeoutRef w = Some h /\ h <> 0
                   /\ timers (disconnect w)
                      = filter (fun t => handle t <> h) (timers w)).
Proof.
  unfold disconnect.
  destruct (reconnectTimeoutRef w) as [h|] eqn:Href.
  - destruct (Nat.eqb_spec h 0) as [Hz|Hnz].
    + destruct (wsRef w) as [i|]; simpl.
      * destruct (ws_close_keeps i w) as (Ht & Hn & _). rewrite Ht, Hn. auto.
      * auto.
    + destruct (wsRef (clearTimeout h w)) as [i|]; simpl.
      * destruct (ws_close_keeps i (clearTimeout h w)) as (Ht & Hn & _).
        rewrite Ht, Hn. split; [reflexivity|]. right. exists h. auto.
      * split; [reflexivity|]. right. exists h. auto.
  - destruct (wsRef w) as [i|]; simpl.
    + destruct (ws_close_keeps i w) as (Ht & Hn & _). rewrite Ht, Hn. auto.
    + auto.
Qed.

Lemma onclose_fresh (w : World) :
  handles_fresh w -> handles_fresh (onclose w).
Proof.
  unfold handles_fresh, onclose. simpl. intros Hall.
  apply Forall_app. split.
  - eapply Forall_impl; [exact Hall|]. simpl. intros t Ht. lia.
  - repeat constructor.
Qed.

Lemma handles_fresh_step (e : Event) (w w' : World) :
  handles_fresh w -> step e w = Some w' -> handles_fresh w'.
Proof.
  intros Hfresh Hstep.
  destruct e as [| |i|i f|i|i|h|ms]; simpl in Hstep.
  - injection Hstep as <-. unfold handles_fresh.
    destruct (connect_keeps w) as (-> & -> & _). exact Hfresh.
  - injection Hstep as <-. unfold handles_fresh.
    destruct (disconnect_timers w) as (-> & [->|(h & _ & _ & ->)]);
      [exact Hfresh|]. apply Forall_filter_keeps. exact Hfresh.
  - destruct (sockets w !! i) as [[| | |]|]; try discriminate.
    injection Hstep as <-. exact Hfresh.
  - destruct (sockets w !! i) as [[| | |]|]; try discriminate;
      injection Hstep as <-; destruct f; exact Hfresh.
  - destruct (sockets w !! i) as [[| | |]|]; try discriminate;
      injection Hstep as <-; apply onclose_fresh; exact Hfresh.
  - destruct (sockets w !! i) as [[| | |]|]; try discriminate;
      injection Hstep as <-; apply onclose_fresh; exact Hfresh.
  - destruct (find_timer h w) as [t|]; [|discriminate].
    destruct (due t <=? clock w)%N; [|discriminate]. injection Hstep as <-.
    unfold handles_fresh.
    destruct (connect_keeps (clearTimeout h w)) as (-> & -> & _).
    simpl. apply Forall_filter_keeps. exact Hfresh.
  - injection Hstep as <-. exact Hfresh.
Qed.

Lemma handles_fresh_run (es : list Event) (w w' : World) :
  handles_fresh w -> run es w = Some w' -> handles_fresh w'.
Proof.
  revert w. induction es as [|e es IH]; intros w Hfresh Hrun; simpl in Hrun.
  - injection Hrun as <-. exact Hfresh.
  - destruct (step e w) as [w1|] eqn:Hstep; [|discriminate].
    exact (IH w1 (handles_fresh_step e w w1 Hfresh Hstep) Hrun).
Qed.

Lemma find_fresh_timer (l : list Timer) (h : nat) (d : N) :
  Forall (fun t => handle t < h) l ->
  List.find (fun t => Nat.eqb (handle t) h) (l ++ [{| handle := h; due := d |}])
  = Some {| handle := h; due := d |}.
Proof.
  induction 1 as [|t l Ht _ IH]; simpl.
  - rewrite Nat.eqb_refl. reflexivity.
  - destruct (Nat.eqb_spec (handle t) h); [lia|exact IH].
Qed.

(** X8. In every state the hook can reach, the timer armed by a close
    cannot fire until 3000 ms have passed, and can fire once they have:
    a reconnection attempt never follows its close sooner than the
    backoff. *)
Theorem reconnect_waits_for_backoff
        (valid_url : bool) (es : list Event) (w w' : World) (i : nat) (ms : N) :
  run es (initial valid_url) = Some w ->
  step (Close i) w = Some w' ->
  (ms < RECONNECT_DELAY)%N ->
  run [Advance ms; Fire (next_handle w)] w' = None
  /\ run [Advance RECONNECT_DELAY; Fire (next_handle w)] w' <> None.
Proof.
  intros Hrun Hclose Hms.
  assert (Hfresh : handles_fresh w).
  { eapply handles_fresh_run; [|exact Hrun]. constructor. }
  assert (Hw' : timers w' = timers w ++ [{| handle := next_handle w;
                                            due := (clock w + RECONNECT_DELAY)%N |}]
                /\ clock w' = clock w).
  { simpl in Hclose. destruct (sockets w !! i) as [[| | |]|]; try discriminate;
      injection Hclose as <-; split; reflexivity. }
  destruct Hw' as [Htimers Hclock].
  assert (Hfind : forall c,
             find_timer (next_handle w)
               {| connectionStatus := connectionStatus w';
                  lastMessage := lastMessage w'; wsRef := wsRef w';
                  reconnectTimeoutRef := reconnectTimeoutRef w';
                  url_ok := url_ok w'; sockets := sockets w';
                  timers := timers w'; next_handle := next_handle w';
                  clock := c; console := console w' |}
             = Some {| handle := next_handle w;
                       due := (clock w + RECONNECT_DELAY)%N |}).
  { intros c. unfold find_timer. simpl. rewrite Htimers.
    apply find_fresh_timer. exact Hfresh. }
  split.
  - cbn [run step]. rewrite Hfind. cbn [due clock]. rewrite Hclock.
    destruct (N.leb_spec (clock w + RECONNECT_DELAY) (clock w + ms)); [lia|].
    reflexivity.
  - cbn [run step]. rewrite Hfind. cbn [due clock]. rewrite Hclock.
    rewrite N.leb_refl. discriminate.
Qed.

Lemma reconnect_waits_for_backoff_witness :
  run [Advance 2999; Fire 1]
      (default mounted (run [CallConnect; Open 0; Close 0] (initial true))) = None
  /\ run [Advance RECONNECT_DELAY; Fire 1]
         (default mounted (run [CallConnect; Open 0; Close 0] (initial true))) <> None.
Proof.
  apply (reconnect_waits_for_backoff true [CallConnect; Open 0]
           (default mounted (run [CallConnect; Open 0] (initial true)))
           (default mounted (run [CallConnect; Open 0; Close 0] (initial true)))
           0 2999%N).
  - vm_compute. reflexivity.
  - vm_compute. reflexivity.
  - vm_compute. reflexivity.
Defined.

End ConnectionSequences.

Section ReconnectionLoop.
Import Connection Outbound.

Ltac show_fields :=
  cbn [onopen onclose onerror setTimeout setConnectionStatus set_sockets
       set_wsRef set_timers console_error
       sockets connectionStatus lastMessage wsRef reconnectTimeoutRef url_ok
       timers next_handle clock console handle due app].

(** X9. From the mount on, as long as nobody calls [connect] or
    [disconnect], the hook has at most one reconnection timer pending at
    any instant, and none while a socket is live. *)
Theorem reconnect_loop_single_timer (es : list Event) (w : World) :
  Forall automatic es -> run es mounted = Some w ->
  length (timers w) <= 1 /\ (1 <= live w -> timers w = []).
Proof.
  intros Hall Hrun.
  assert (Hinv : one_attempt w).
  { eapply automatic_run_preserves; [|exact Hall|exact Hrun].
    unfold one_attempt. vm_compute. lia. }
  unfold one_attempt in Hinv. split; [lia|].
  intros Hlive. destruct (timers w); [reflexivity|simpl in Hinv; lia].
Qed.

Lemma reconnect_loop_single_timer_witness :
  length (timers (default mounted
                    (run (flapping_rounds 0 3 ++ [Open 3; Failure 3]) mounted))) <= 1.
Proof.
  apply (reconnect_loop_single_timer (flapping_rounds 0 3 ++ [Open 3; Failure 3])).
  - repeat constructor.
  - vm_compute. reflexivity.
Defined.

(** X10. Against a transport that closes right after opening, every round
    takes the hook to [disconnected] with exactly one timer, due 3000 ms
    later, and back to [connecting] on a fresh socket once it fires; this
    goes on for any number of rounds. *)
Theorem flapping_transport_reconnects (count : nat) :
  run (flapping_rounds 0 count) mounted
  = Some (awaiting count (RECONNECT_DELAY * N.of_nat count))
  /\ exists w,
       run (flapping_rounds 0 count ++ [Open count; Close count]) mounted = Some w
       /\ connectionStatus w = disconnected
       /\ live w = 0
       /\ timers w = [{| handle := S count;
                         due := (RECONNECT_DELAY * N.of_nat count
                                 + RECONNECT_DELAY)%N |}].
Proof.
  split; [apply flapping_forever|].
  rewrite run_app, flapping_forever.
  unfold awaiting. cbn [run step sockets].
  rewrite closed_then_lookup, closed_then_insert. show_fields.
  rewrite closed_then_lookup, closed_then_insert. show_fields.
  eexists. split; [reflexivity|]. show_fields.
  repeat apply conj; try reflexivity.
  unfold live, live_sockets. show_fields.
  rewrite <- replicate_S_end.
  induction (S count) as [|k IH]; [reflexivity|].
  simpl. rewrite filter_cons_False by (intros Hne; apply Hne; reflexivity).
  exact IH.
Qed.

Lemma live_sockets_positive (l : list ReadyState) (i : nat) (s : ReadyState) :
  l !! i = Some s -> s <> CLOSED -> 1 <= live_sockets l.
Proof.
  intros Hi Hs. pose proof (live_sockets_insert l i s CLOSED Hi) as Hins.
  repeat case_decide; try contradiction; lia.
Qed.

Lemma onclose_remembered (w : World) :
  1 <= next_handle w -> timers w = [] -> timers_remembered (onclose w).
Proof.
  intros Hpos Hnone. unfold timers_remembered, onclose. simpl.
  rewrite Hnone. split; [lia|]. repeat constructor. simpl. lia.
Qed.

Lemma remembered_step (e : Event) (w w' : World) :
  one_attempt w -> timers_remembered w -> automatic e ->
  step e w = Some w' -> timers_remembered w'.
Proof.
  intros Hone [Hpos Hrem] Hauto Hstep.
  assert (Hclosing : forall i s, sockets w !! i = Some s -> s <> CLOSED ->
                                 timers w = []).
  { intros i s Hi Hs. pose proof (live_sockets_positive _ _ _ Hi Hs) as Hlive.
    unfold one_attempt, live in Hone.
    destruct (timers w); [reflexivity|simpl in Hone; lia]. }
  destruct e as [| |i|i f|i|i|h|ms]; simpl in Hauto, Hstep; try contradiction.
  - destruct (sockets w !! i) as [[| | |]|]; try discriminate.
    injection Hstep as <-. split; assumption.
  - destruct (sockets w !! i) as [[| | |]|]; try discriminate;
      injection Hstep as <-; destruct f; split; assumption.
  - destruct (sockets w !! i) as [s|] eqn:Hi; [|discriminate].
    destruct s; try discriminate; injection Hstep as <-;
      apply onclose_remembered; simpl;
      try assumption; eapply Hclosing; eauto; discriminate.
  - destruct (sockets w !! i) as [s|] eqn:Hi; [|discriminate].
    destruct s; try discriminate; injection Hstep as <-;
      apply onclose_remembered; simpl;
      try assumption; eapply Hclosing; eauto; discriminate.
  - destruct (find_timer h w) as [t|]; [|discriminate].
    destruct (due t <=? clock w)%N; [|discriminate]. injection Hstep as <-.
    unfold timers_remembered.
    destruct (connect_keeps (clearTimeout h w)) as (-> & -> & -> & _).
    simpl. split; [assumption|]. apply Forall_filter_keeps. exact Hrem.
  - injection Hstep as <-. split; assumption.
Qed.

Lemma remembered_run (es : list Event) (w w' : World) :
  one_attempt w -> timers_remembered w -> Forall automatic es ->
  run es w = Some w' -> one_attempt w' /\ timers_remembered w'.
Proof.
  revert w. induction es as [|e es IH]; intros w Hone Hrem Hall Hrun;
    simpl in Hrun.
  - injection Hrun as <-. split; assumption.
  - inversion Hall as [|? ? Hhead Htail]; subst.
    destruct (step e w) as [w1|] eqn:Hstep; [|discriminate].
    apply (IH w1);
      [exact (automatic_step_preserves e w w1 Hone Hhead Hstep)
      |exact (remembered_step e w w1 Hone Hrem Hhead Hstep)
      |exact Htail|exact Hrun].
Qed.

Lemma all_closed (l : list ReadyState) (i : nat) (s : ReadyState) :
  live_sockets l = 0 -> l !! i = Some s -> s = CLOSED.
Proof.
  intros Hzero Hi. destruct (decide (s = CLOSED)) as [|Hne]; [assumption|].
  pose proof (live_sockets_positive l i s Hi Hne). lia.
Qed.

Lemma filter_same_handle (l : list Timer) (h : nat) :
  Forall (fun t => handle t = h) l ->
  filter (fun t => handle t <> h) l = [].
Proof.
  induction 1 as [|t l Heq _ IH]; [reflexivity|].
  rewrite filter_cons_False; [exact IH|]. intros Hne. apply Hne. exact Heq.
Qed.

Lemma disconnect_when_remembered (w : World) :
  timers_remembered w -> timers (disconnect w) = [].
Proof.
  intros [_ Hrem].
  destruct (timers w) as [|t l] eqn:Ht.
  - destruct (disconnect_timers w) as (_ & [Hsame|(h & _ & _ & Hf)]).
    + rewrite Hsame. exact Ht.
    + rewrite Hf, Ht. reflexivity.
  - inversion Hrem as [|? ? [Hr Hh] Hrest]; subst.
    assert (Hall : Forall (fun t0 => handle t0 = handle t) (t :: l)).
    { constructor; [reflexivity|].
      eapply Forall_impl; [exact Hrest|]. simpl. intros t0 [Hr0 _]. congruence. }
    unfold disconnect. rewrite Hr.
    destruct (Nat.eqb_spec (handle t) 0) as [|_]; [contradiction|].
    assert (Hclear : timers (clearTimeout (handle t) w) = []).
    { unfold clearTimeout. simpl. rewrite Ht.
      apply filter_same_handle. exact Hall. }
    destruct (wsRef (clearTimeout (handle t) w)) as [i|]; simpl.
    + destruct (ws_close_keeps i (clearTimeout (handle t) w)) as (-> & _).
      exact Hclear.
    + exact Hclear.
Qed.

Lemma disconnect_sockets_when_closed (w : World) :
  live w = 0 -> sockets (disconnect w) = sockets w.
Proof.
  intros Hzero. unfold disconnect.
  set (w1 := match reconnectTimeoutRef w with
             | Some h => if Nat.eqb h 0 then w else clearTimeout h w
             | None => w
             end).
  assert (Hs : sockets w1 = sockets w).
  { unfold w1. destruct (reconnectTimeoutRef w) as [h|]; [|reflexivity].
    destruct (Nat.eqb h 0); reflexivity. }
  destruct (wsRef w1) as [i|]; [|exact Hs].
  simpl. unfold ws_close.
  destruct (sockets w1 !! i) as [s|] eqn:Hi; [|exact Hs].
  rewrite Hs in Hi. rewrite (all_closed _ _ _ Hzero Hi). exact Hs.
Qed.

(** X11. When [disconnect] is called while the automatic loop is between
    attempts (no live socket, the reconnection timer possibly pending), the
    loop ends: the timer is cancelled and afterwards no socket event and no
    timer can be delivered; only time passes. *)
Theorem disconnect_between_attempts_ends_loop (es : list Event) (w : World) :
  Forall automatic es -> run es mounted = Some w -> live w = 0 ->
  timers (disconnect w) = []
  /\ live (disconnect w) = 0
  /\ forall e, automatic e -> (forall ms, e <> Advance ms) ->
               step e (disconnect w) = None.
Proof.
  intros Hall Hrun Hzero.
  assert (Hrem : timers_remembered w).
  { eapply remembered_run; [| |exact Hall|exact Hrun].
    - unfold one_attempt. vm_compute. lia.
    - split; [vm_compute; lia|constructor]. }
  pose proof (disconnect_when_remembered w Hrem) as Htimers.
  pose proof (disconnect_sockets_when_closed w Hzero) as Hsockets.
  assert (Hlive : live (disconnect w) = 0) by (unfold live; rewrite Hsockets; exact Hzero).
  split; [exact Htimers|]. split; [exact Hlive|].
  intros e Hauto Hnot.
  assert (Hclosed : forall i s, sockets (disconnect w) !! i = Some s -> s = CLOSED)
    by (intros i s Hi; exact (all_closed _ _ _ Hlive Hi)).
  destruct e as [| |i|i f|i|i|h|ms]; simpl in Hauto |- *; try contradiction.
  - destruct (sockets (disconnect w) !! i) as [s|] eqn:Hi; [|reflexivity].
    rewrite (Hclosed i s Hi). reflexivity.
  - destruct (sockets (disconnect w) !! i) as [s|] eqn:Hi; [|reflexivity].
    rewrite (Hclosed i s Hi). reflexivity.
  - destruct (sockets (disconnect w) !! i) as [s|] eqn:Hi; [|reflexivity].
    rewrite (Hclosed i s Hi). reflexivity.
  - destruct (sockets (disconnect w) !! i) as [s|] eqn:Hi; [|reflexivity].
    rewrite (Hclosed i s Hi). reflexivity.
  - unfold find_timer. rewrite Htimers. reflexivity.
  - exfalso. exact (Hnot ms eq_refl).
Qed.

Lemma disconnect_between_attempts_ends_loop_witness :
  let w := default mounted (run [Open 0; Close 0] mounted) in
  timers (disconnect w) = []
  /\ live (disconnect w) = 0
  /\ step (Fire 1) (disconnect w) = None.
Proof.
  cbv zeta.
  destruct (disconnect_between_attempts_ends_loop [Open 0; Close 0]
              (default mounted (run [Open 0; Close 0] mounted)))
    as (Htimers & Hlive & Hquiet).
  - repeat constructor.
  - vm_compute. reflexivity.
  - vm_compute. reflexivity.
  - split; [exact Htimers|]. split; [exact Hlive|].
    apply Hquiet; [exact I|]. intros ms. discriminate.
Defined.

End ReconnectionLoop.

Section SendingAndReceiving.
Import Connection Outbound.

Lemma sendMessage_needs_open (message : string) (w : World) :
  current_is_open w = false -> sendMessage message w = None.
Proof.
  unfold current_is_open, current_readyState, sendMessage.
  destruct (wsRef w) as [i|]; [|reflexivity].
  destruct (sockets w !! i) as [[| | |]|]; try reflexivity. discriminate.
Qed.

(** X12. [sendMessage] hands a message to the socket only when the current
    socket is open, and then unchanged and to that socket. A message sent
    after [disconnect], or right after a [connect] that had to construct a
    socket, is dropped. *)
Theorem sendMessage_only_when_open (message : string) (w : World) :
  (forall i m, sendMessage message w = Some (i, m) ->
               wsRef w = Some i /\ sockets w !! i = Some OPEN /\ m = message)
  /\ sendMessage message (disconnect w) = None
  /\ (current_is_open w = false -> sendMessage message (connect w) = None).
Proof.
  split; [|split].
  - unfold sendMessage. intros i m Hsend.
    destruct (wsRef w) as [k|]; [|discriminate].
    destruct (sockets w !! k) as [[| | |]|] eqn:Hk; try discriminate.
    injection Hsend as <- <-. auto.
  - unfold sendMessage, disconnect.
    set (w1 := match reconnectTimeoutRef w with
               | Some h => if Nat.eqb h 0 then w else clearTimeout h w
               | None => w
               end).
    destruct (wsRef w1) as [i|] eqn:Href; simpl; [reflexivity|].
    rewrite Href. reflexivity.
  - intros Hopen. apply sendMessage_needs_open.
    unfold connect. rewrite Hopen. simpl.
    destruct (url_ok w); simpl.
    + unfold current_is_open, current_readyState. simpl.
      rewrite list_lookup_middle by reflexivity. reflexivity.
    + exact Hopen.
Qed.

Lemma deliver_frames (i : nat) (frames : list Frame) (w : World) :
  sockets w !! i = Some OPEN ->
  exists w', run (map (Message i) frames) w = Some w'
             /\ connectionStatus w' = connectionStatus w
             /\ sockets w' = sockets w
             /\ timers w' = timers w
             /\ wsRef w' = wsRef w
             /\ (Forall (fun f => ~ is_wellformed f) frames ->
                 lastMessage w' = lastMessage w).
Proof.
  revert w. induction frames as [|f frames IH]; intros w Hopen.
  - exists w. repeat split.
  - simpl. rewrite Hopen.
    destruct (IH (onmessage f w)) as (w' & Hrun & Hs & Hk & Ht & Hr & Hm).
    { destruct f; exact Hopen. }
    exists w'. split; [exact Hrun|].
    destruct f; simpl in *; repeat apply conj; try assumption.
    + intros Hall. inversion Hall as [|? ? _ Hrest]; subst. exact (Hm Hrest).
    + intros Hall. inversion Hall as [|? ? Hhead _]; subst.
      exfalso. apply Hhead. exact I.
Qed.

(** X13. Of the frames delivered on an open socket, the hook exposes the
    message of the latest one that parsed; frames that fail to parse before
    or after it are skipped, and no frame changes the connection status,
    the sockets or the timers. *)
Theorem latest_parsed_message_wins
        (i : nat) (before after : list Frame) (m : WebSocketMessage) (w : World) :
  sockets w !! i = Some OPEN ->
  Forall (fun f => ~ is_wellformed f) after ->
  exists w', run (map (Message i) (before ++ WellFormed m :: after)) w = Some w'
             /\ lastMessage w' = Some m
             /\ connectionStatus w' = connectionStatus w
             /\ sockets w' = sockets w
             /\ timers w' = timers w.
Proof.
  intros Hopen Hafter. rewrite map_app, run_app.
  destruct (deliver_frames i before w Hopen) as (w1 & Hrun1 & Hs1 & Hk1 & Ht1 & _).
  rewrite Hrun1. simpl. rewrite Hk1, Hopen.
  destruct (deliver_frames i after (onmessage (WellFormed m) w1))
    as (w2 & Hrun2 & Hs2 & Hk2 & Ht2 & _ & Hm2).
  { simpl. rewrite Hk1. exact Hopen. }
  exists w2. split; [exact Hrun2|].
  rewrite (Hm2 Hafter), Hs2, Hk2, Ht2. simpl.
  repeat apply conj; congruence.
Qed.

Lemma latest_parsed_message_wins_witness :
  let m := Home.game_state_message (Scenarios.snapshot [Scenarios.pikachu 50 50 false]) in
  let w := default mounted (run [Open 0] mounted) in
  exists w', run (map (Message 0) ([Malformed] ++ WellFormed m :: [Malformed])) w
             = Some w'
             /\ lastMessage w' = Some m
             /\ connectionStatus w' = connected
             /\ sockets w' = [OPEN]
             /\ timers w' = [].
Proof.
  cbv zeta.
  apply (latest_parsed_message_wins 0 [Malformed] [Malformed]).
  - vm_compute. reflexivity.
  - repeat constructor. simpl. tauto.
Defined.

(** X14. When the socket cannot be constructed (the url is rejected),
    [connect] reports [error] and schedules nothing: no socket exists and
    no timer is pending, so the automatic loop never starts and the status
    stays [error]. *)
Theorem rejected_url_is_terminal (es : list Event) (w : World) :
  Forall automatic es ->
  run es (connect (initial false)) = Some w ->
  connectionStatus w = error /\ sockets w = [] /\ timers w = [].
Proof.
  assert (Hinv : forall es w0 w1,
             connectionStatus w0 = error -> sockets w0 = [] -> timers w0 = [] ->
             Forall automatic es -> run es w0 = Some w1 ->
             connectionStatus w1 = error /\ sockets w1 = [] /\ timers w1 = []).
  { clear. induction es as [|e es IH]; intros w0 w1 Hs Hk Ht Hall Hrun;
      simpl in Hrun.
    - injection Hrun as <-. auto.
    - inversion Hall as [|? ? Hhead Htail]; subst.
      destruct e as [| |i|i f|i|i|h|ms]; simpl in Hhead, Hrun; try contradiction;
        try (rewrite Hk in Hrun; discriminate).
      + unfold find_timer in Hrun. rewrite Ht in Hrun. discriminate.
      + eapply IH; [| | |exact Htail|exact Hrun]; assumption. }
  intros Hall Hrun. eapply Hinv; [| | |exact Hall|exact Hrun]; reflexivity.
Qed.

Lemma rejected_url_is_terminal_witness :
  let w := default mounted
             (run [Advance 3000; Advance 3000] (connect (initial false))) in
  connectionStatus w = error /\ sockets w = [] /\ timers w = [].
Proof.
  cbv zeta.
  apply (rejected_url_is_terminal [Advance 3000; Advance 3000]).
  - repeat constructor.
  - vm_compute. reflexivity.
Defined.

End SendingAndReceiving.

(** * Further properties of the command dispatcher *)

Section DispatcherSequences.
Import GameStore Dispatcher.

Variable transport : Request -> FetchOutcome.
Variable now : string.

Ltac run_handler :=
  cbv zeta;
  unfold run, handleStart, handleStop, handleIterate, try_catch, bind, read,
    fetch, json, throw, ret, setError, setIsRunning, addLog, updateGameState,
    console_error, modify, on_page;
  simpl.

(** X15. Whatever the backend answers, [iterate] never changes the running
    flag, the error, the connection flag or the roster, and it issues at
    most one request, to [/api/game/iterate]. *)
Theorem handleIterate_is_contained (w0 : World) :
  let w := snd (handleIterate transport now w0) in
  isRunning (page w) = isRunning (page w0)
  /\ error (page w) = error (page w0)
  /\ isConnected (page w) = isConnected (page w0)
  /\ agents (store (page w)) = agents (store (page w0))
  /\ (calls w = calls w0 \/ calls w = calls w0 ++ [iterate_request]).
Proof.
  run_handler. destruct (isRunning (page w0)) eqn:Hrun; simpl.
  2:{ rewrite Hrun. repeat apply conj; auto. }
  destruct (transport iterate_request) as [e|r]; simpl.
  { rewrite Hrun. repeat apply conj; auto. }
  destruct (body r) as [e|j]; simpl.
  { rewrite Hrun. repeat apply conj; auto. }
  destruct (game_state j) as [gs|]; simpl;
    (destruct (action_taken j) as [a|]; [destruct (String.eqb a "")|]);
    simpl; rewrite ?Hrun; repeat apply conj; auto.
Qed.

(** X16. [start] issues exactly one request and is all or nothing: either
    the backend accepted it (a 2xx response), and then the session is
    running, the error is cleared and the System entry ["started"], stamped
    with the time of the call, is put behind the last 50 entries of the
    log, the snapshot and the roster staying as they were; or the running
    flag and the store are exactly as before and an error message is
    shown. *)
Theorem handleStart_all_or_nothing (p : Page) :
  let w := run (handleStart transport now) p in
  calls w = [start_request]
  /\ ((exists r, transport start_request = Resolved r /\ ok r = true)
      /\ isRunning (page w) = true
      /\ error (page w) = None
      /\ gameState (store (page w)) = gameState (store p)
      /\ agents (store (page w)) = agents (store p)
      /\ logs (store (page w))
         = drop (length (logs (store p)) - 50) (logs (store p))
           ++ [{| agent := "System"; action := "started";
                  details := "AI Pokemon player started"; timestamp := now |}]
      \/
      (forall r, transport start_request = Resolved r -> ok r = false)
      /\ isRunning (page w) = isRunning p
      /\ store (page w) = store p
      /\ exists msg, error (page w) = Some msg).
Proof.
  run_handler. split.
  - destruct (transport start_request) as [e|r]; simpl; [reflexivity|].
    destruct (ok r); simpl; [reflexivity|].
    destruct (body r); reflexivity.
  - destruct (transport start_request) as [e|r] eqn:Ht; simpl.
    + right. repeat apply conj; try reflexivity; [discriminate|eauto].
    + destruct (ok r) eqn:Hok; simpl.
      * left. repeat apply conj; try reflexivity. exists r. auto.
      * right. destruct (body r); simpl; repeat apply conj; try reflexivity;
          try (intros r' Hr'; injection Hr' as <-; exact Hok); eauto.
Qed.

(** X17. Once a [stop] request has resolved, an [iterate] on the resulting
    page is the guarded no-op: it issues no request and changes nothing. *)
Theorem handleIterate_after_stop (w0 : World) (r : Response) :
  transport stop_request = Resolved r ->
  let w1 := snd (handleStop transport now w0) in
  isRunning (page w1) = false
  /\ handleIterate transport now w1 = (Returned tt, w1).
Proof.
  intros Ht. run_handler. rewrite Ht. simpl. split; reflexivity.
Qed.

End DispatcherSequences.

Section DispatcherSequencesWitnesses.
Import GameStore Dispatcher.

(** An accepted [start] on a fresh page, and a rejected one. *)
Lemma handleStart_all_or_nothing_witness :
  (let w := run (handleStart Scenarios.battling_backend "12:00:00") initial_page in
   isRunning (page w) = true
   /\ logs (store (page w))
      = [{| agent := "System"; action := "started";
            details := "AI Pokemon player started"; timestamp := "12:00:00" |}])
  /\ (let w := run (handleStart Scenarios.no_rom_backend "12:00:00") initial_page in
      isRunning (page w) = false /\ logs (store (page w)) = []).
Proof.
  split; cbv zeta.
  - destruct (handleStart_all_or_nothing Scenarios.battling_backend "12:00:00"
                initial_page) as [_ [(_ & Hrun & _ & _ & _ & Hlogs)|(Hnot & _)]].
    + split; [exact Hrun | exact Hlogs].
    + specialize (Hnot _ eq_refl). discriminate.
  - destruct (handleStart_all_or_nothing Scenarios.no_rom_backend "12:00:00"
                initial_page) as [_ [((r & Hr & Hok) & _)|(_ & Hrun & Hstore & _)]].
    + injection Hr as <-. discriminate.
    + split; [exact Hrun | rewrite Hstore; reflexivity].
Defined.

Lemma handleIterate_after_stop_witness :
  let w0 := {| page := Scenarios.running_page; calls := []; console := [] |} in
  let w1 := snd (handleStop Scenarios.failing_backend "12:00:00" w0) in
  isRunning (page w1) = false
  /\ handleIterate Scenarios.failing_backend "12:00:00" w1 = (Returned tt, w1).
Proof.
  cbv zeta.
  apply (handleIterate_after_stop Scenarios.failing_backend "12:00:00"
           {| page := Scenarios.running_page; calls := []; console := [] |}
           {| http_status := 500;
              body := NotJson (ErrorObject "Unexpected token") |}).
  reflexivity.
Defined.

End DispatcherSequencesWitnesses.

(** * Inbound messages and the store *)

Section InboundProperties.
Import GameStore Inbound.







End InboundProperties.

(** * Further properties of the screen poll *)

Section ScreenPollSequences.
Import GameDisplay.

(** X19. From the render that flips the running flag to false on, and
    until a render flips it back, the poll issues no request: the interval
    is gone, and neither late answers nor further renders start one. *)
Theorem poll_stops_with_flag (d d' : Display) (es : list Event) :
  isRunning d = true ->
  Forall keeps_stopped es ->
  run (Render false :: es) d = Some d' ->
  issued d' = issued d /\ interval d' = None /\ isRunning d' = false.
Proof.
  intros Hrun Hall Hsteps. simpl in Hsteps.
  destruct (render_false_stops d Hrun) as (Hflag & Hint & _ & Hiss & _).
  destruct (stopped_issues_nothing es (render false d) d' Hint Hall Hsteps)
    as [Hint' Hiss'].
  split; [congruence|]. split; [exact Hint'|].
  clear Hiss Hiss' Hint'. revert Hsteps Hflag Hint.
  generalize (render false d). clear d Hrun.
  induction es as [|e es IH]; intros d Hsteps Hflag Hint; simpl in Hsteps.
  - injection Hsteps as <-. exact Hflag.
  - inversion Hall as [|? ? Hhead Htail]; subst.
    destruct (step e d) as [d1|] eqn:Hstep; [|discriminate].
    apply (IH Htail d1 Hsteps).
    + destruct e as [[|]| |o]; simpl in *.
      * contradiction.
      * injection Hstep as <-. unfold render. rewrite Hflag. exact Hflag.
      * rewrite Hint in Hstep. discriminate.
      * destruct (inflight d); [discriminate|]. injection Hstep as <-.
        destruct o as [|[|] [image|]]; exact Hflag.
    + exact (proj1 (stopped_step e d d1 Hint Hhead Hstep)).
Qed.

Lemma poll_stops_with_flag_witness :
  let d := default mounted (run [Render true; Tick; Tick] mounted) in
  let d' := default mounted
              (run [Render true; Tick; Tick; Render false;
                    Arrive (ScreenResponse true (Some "AAAA"%string));
                    Render false; Arrive FetchRejected] mounted) in
  issued d' = issued d /\ interval d' = None /\ isRunning d' = false.
Proof.
  cbv zeta.
  apply (poll_stops_with_flag _ _
           [Arrive (ScreenResponse true (Some "AAAA"%string));
            Render false; Arrive FetchRejected]).
  - vm_compute. reflexivity.
  - repeat constructor.
  - vm_compute. reflexivity.
Defined.

Lemma poll_invariant_step (e : Event) (d d' : Display) :
  inflight d <= issued d ->
  interval d = (if isRunning d then Some true else None) ->
  step e d = Some d' ->
  inflight d' <= issued d'
  /\ interval d' = (if isRunning d' then Some true else None).
Proof.
  intros Hle Hint Hstep. destruct e as [running| |o]; simpl in Hstep.
  - injection Hstep as <-. unfold render.
    destruct running, (isRunning d) eqn:Hrun; simpl.
    + rewrite Hrun. split; assumption.
    + split; [lia|reflexivity].
    + split; [assumption|reflexivity].
    + rewrite Hrun. split; assumption.
  - destruct (interval d) as [captured|] eqn:Hi; [|discriminate].
    injection Hstep as <-.
    destruct (isRunning d) eqn:Hrun; [|discriminate].
    injection Hint as ->. simpl. rewrite Hrun, Hi. split; [lia|reflexivity].
  - destruct (inflight d) as [|n] eqn:Hn; [discriminate|].
    injection Hstep as <-.
    destruct o as [|[|] [image|]]; simpl; split; try lia; exact Hint.
Qed.

(** X20. In every state the component can reach, the interval is set
    exactly while the session is running, and its callback was created by a
    render with [isRunning = true]: a tick is possible only while running
    and always issues exactly one request. The requests awaiting an answer
    never outnumber the requests issued. *)
Theorem poll_runs_exactly_while_running (es : list Event) (d : Display) :
  run es mounted = Some d ->
  inflight d <= issued d
  /\ interval d = (if isRunning d then Some true else None)
  /\ (forall d', step Tick d = Some d' ->
                 isRunning d = true /\ issued d' = S (issued d)).
Proof.
  intros Hrun.
  assert (Hinv : inflight d <= issued d
                 /\ interval d = (if isRunning d then Some true else None)).
  { revert Hrun.
    assert (Hbase : inflight mounted <= issued mounted
                    /\ interval mounted
                       = (if isRunning mounted then Some true else None))
      by (split; [apply Nat.le_refl|reflexivity]).
    revert Hbase. generalize mounted. clear.
    induction es as [|e es IH]; intros d0 [Hle Hint] Hrun; simpl in Hrun.
    - injection Hrun as <-. auto.
    - destruct (step e d0) as [d1|] eqn:Hstep; [|discriminate].
      apply (IH d1); [|exact Hrun].
      exact (poll_invariant_step e d0 d1 Hle Hint Hstep). }
  destruct Hinv as [Hle Hint]. split; [exact Hle|]. split; [exact Hint|].
  intros d' Hstep. simpl in Hstep. rewrite Hint in Hstep.
  destruct (isRunning d); [|discriminate].
  injection Hstep as <-. split; reflexivity.
Qed.

Lemma poll_runs_exactly_while_running_witness :
  let d := default mounted
             (run [Render true; Tick; Arrive FetchRejected; Tick] mounted) in
  inflight d <= issued d
  /\ interval d = (if isRunning d then Some true else None)
  /\ (forall d', step Tick d = Some d' ->
                 isRunning d = true /\ issued d' = S (issued d)).
Proof.
  cbv zeta.
  apply (poll_runs_exactly_while_running
           [Render true; Tick; Arrive FetchRejected; Tick]).
  vm_compute. reflexivity.
Defined.

End ScreenPollSequences.

(** * Properties of the panels *)

Section PanelProperties.
Import GameStore.

Lemma count_char_app (c : ascii) (s1 s2 : string) :
  ControlPanel.count_char c (s1 ++ s2)%string
  = ControlPanel.count_char c s1 + ControlPanel.count_char c s2.
Proof.
  induction s1 as [|a s1 IH]; simpl; [reflexivity|]. rewrite IH. lia.
Qed.

Lemma bits_set_shift (b : Z) (n : nat) (low : bool) :
  (0 <= b)%Z ->
  ControlPanel.bits_set (2 * b + (if low then 1 else 0)) (S n)
  = (if low then 1 else 0) + ControlPanel.bits_set b n.
Proof.
  intros Hb. unfold ControlPanel.bits_set.
  change (seq 0 (S n)) with (0 :: seq 1 n).
  rewrite <- seq_shift. cbn [List.filter]. rewrite filter_map_swap.
  assert (Hhead : Z.testbit (2 * b + (if low then 1 else 0)) (Z.of_nat 0) = low).
  { destruct low; simpl Z.of_nat;
      [apply Z.testbit_odd_0|rewrite Z.add_0_r; apply Z.testbit_even_0]. }
  rewrite Hhead.
  assert (Hrest : forall i,
             Z.testbit (2 * b + (if low then 1 else 0)) (Z.of_nat (S i))
             = Z.testbit b (Z.of_nat i)).
  { intros i. rewrite Nat2Z.inj_succ.
    destruct low; [apply Z.testbit_odd_succ|rewrite Z.add_0_r; apply Z.testbit_even_succ];
      lia. }
  rewrite (List.filter_ext _ (fun i => Z.testbit b (Z.of_nat i)) Hrest).
  destruct low; cbn [length]; rewrite List.length_map; reflexivity.
Qed.

Lemma bits_set_zero (n : nat) : ControlPanel.bits_set 0 n = 0.
Proof.
  unfold ControlPanel.bits_set.
  rewrite (List.filter_ext _ (fun _ => false)) by (intros i; apply Z.testbit_0_l).
  induction (seq 0 n); simpl; auto.
Qed.

Lemma binary_digits_count (p : positive) (n : nat) :
  (Zpos p < 2 ^ Z.of_nat n)%Z ->
  ControlPanel.count_char "1" (ControlPanel.binary_digits p)
  = ControlPanel.bits_set (Zpos p) n.
Proof.
  revert n. induction p as [q IH|q IH|]; intros n Hlt.
  - destruct n as [|m]; [simpl in Hlt; lia|].
    rewrite Nat2Z.inj_succ, Z.pow_succ_r in Hlt by lia.
    simpl ControlPanel.binary_digits. rewrite count_char_app, (IH m) by lia.
    rewrite Pos2Z.inj_xI. rewrite (bits_set_shift (Zpos q) m true) by lia.
    simpl. lia.
  - destruct n as [|m]; [simpl in Hlt; lia|].
    rewrite Nat2Z.inj_succ, Z.pow_succ_r in Hlt by lia.
    simpl ControlPanel.binary_digits. rewrite count_char_app, (IH m) by lia.
    rewrite Pos2Z.inj_xO.
    pose proof (bits_set_shift (Zpos q) m false) as Hshift.
    rewrite Z.add_0_r in Hshift. rewrite Hshift by lia.
    simpl. lia.
  - destruct n as [|m]; [simpl in Hlt; lia|].
    change 1%Z with (2 * 0 + 1)%Z.
    rewrite (bits_set_shift 0 m true) by lia. rewrite bits_set_zero. reflexivity.
Qed.

(** X21. For a bitmask [0 <= badges < 2^n], the badge count the control
    panel shows is the number of bits set among the first [n] positions,
    each earned badge counted once; so it is at most [n], and at most 8 for
    a one-byte mask. *)
Theorem badgeCount_counts_set_bits (badges : Z) (n : nat) :
  (0 <= badges < 2 ^ Z.of_nat n)%Z ->
  ControlPanel.badgeCount badges = ControlPanel.bits_set badges n
  /\ ControlPanel.badgeCount badges <= n.
Proof.
  intros [Hnn Hlt].
  assert (Heq : ControlPanel.badgeCount badges = ControlPanel.bits_set badges n).
  { unfold ControlPanel.badgeCount. destruct badges as [|p|p]; [|  |lia].
    - rewrite bits_set_zero. reflexivity.
    - apply binary_digits_count. exact Hlt. }
  split; [exact Heq|]. rewrite Heq. unfold ControlPanel.bits_set.
  etransitivity; [apply List.filter_length_le|]. rewrite length_seq. lia.
Qed.

Lemma badgeCount_counts_set_bits_witness :
  ControlPanel.badgeCount 165 = ControlPanel.bits_set 165 8
  /\ ControlPanel.badgeCount 165 <= 8.
Proof.
  apply (badgeCount_counts_set_bits 165 8). vm_compute. split; [discriminate|reflexivity].
Defined.

(** X22. What the agent panel shows does not depend on any agent's
    status: after [updateAgentStatus] it renders the same rows as before.
    The status label and dot of every row follow the page's running flag
    alone. *)
Theorem AgentPanel_ignores_status
        (agentName : string) (s : AgentStatus) (st : Store) (isActive : bool) :
  AgentPanel.AgentPanel (agents (updateAgentStatus agentName s st)) isActive
  = AgentPanel.AgentPanel (agents st) isActive
  /\ Forall (fun r => AgentPanel.row_active r = isActive)
            (AgentPanel.AgentPanel (agents st) isActive).
Proof.
  split.
  - unfold AgentPanel.AgentPanel, updateAgentStatus. simpl.
    unfold updateAgents at 1. rewrite length_map.
    destruct (0 <? length (agents st))%nat; [|reflexivity].
    unfold updateAgents.
    change (map ?f ?l) with (f <$> l). rewrite imap_fmap.
    apply imap_ext. intros i a _. simpl.
    destruct (String.eqb (name a) agentName); reflexivity.
  - unfold AgentPanel.AgentPanel.
    generalize (if (0 <? length (agents st))%nat then agents st else DEFAULT_AGENTS).
    intros l.
    assert (Hany : forall f : nat -> Agent -> AgentPanel.AgentRow,
               (forall i a, AgentPanel.row_active (f i a) = isActive) ->
               Forall (fun r => AgentPanel.row_active r = isActive) (imap f l)).
    { induction l as [|a l IH]; intros f Hf; simpl; constructor.
      - apply Hf.
      - apply IH. intros i b. apply Hf. }
    apply Hany. reflexivity.
Qed.

(** X23. The reasoning log draws every agent of the default roster with
    the icon the roster gives it, and the dispatcher's own "System" entries
    with the gear; only names outside these fall back to the robot. *)
Theorem log_icons_match_roster :
  Forall (fun a => ReasoningLog.getAgentIcon (name a) = icon a) DEFAULT_AGENTS
  /\ ReasoningLog.getAgentIcon "System" = "⚙️"%string
  /\ forall agent,
       ReasoningLog.getAgentIcon agent = "🤖"%string ->
       Forall (fun a => name a <> agent) DEFAULT_AGENTS /\ agent <> "System"%string.
Proof.
  split; [repeat constructor|]. split; [reflexivity|].
  intros agent Hrobot. split.
  - repeat constructor; intros Heq; subst agent; vm_compute in Hrobot; discriminate.
  - intros Heq. subst agent. vm_compute in Hrobot. discriminate.
Qed.

End PanelProperties.

(** * Properties of the emulator controller *)

Section CommandParsing.
Import Controller.

Lemma string_app_assoc (a b c : string) :
  ((a ++ b) ++ c = a ++ (b ++ c))%string.
Proof.
  induction a as [|x a IH]; [reflexivity|].
  change (String x ((a ++ b) ++ c) = String x (a ++ (b ++ c)))%string.
  f_equal. exact IH.
Qed.

Lemma string_app_empty (a : string) : (a ++ "" = a)%string.
Proof.
  induction a as [|x a IH]; [reflexivity|].
  change (String x (a ++ "") = String x a)%string. f_equal. exact IH.
Qed.

Lemma has_bar_app (a b : string) :
  has_bar (a ++ b)%string = has_bar a || has_bar b.
Proof.
  induction a as [|x a IH]; simpl; [reflexivity|].
  rewrite IH. apply orb_assoc.
Qed.

Lemma app_not_empty (a : string) (c : ascii) :
  (a ++ String c "")%string <> ""%string.
Proof. destruct a; discriminate. Qed.

Lemma fields_from_plain (s current : string) :
  has_bar current = false -> Forall plain_field (fields_from current s).
Proof.
  revert current. induction s as [|c rest IH]; intros current Hcur; simpl.
  - destruct (String.eqb_spec current ""); [constructor|].
    repeat constructor; assumption.
  - destruct (Ascii.eqb c bar) eqn:Hc.
    + destruct (String.eqb_spec current "").
      * apply IH. reflexivity.
      * constructor; [split; assumption|]. apply IH. reflexivity.
    + apply IH. rewrite has_bar_app, Hcur. simpl. rewrite Hc. reflexivity.
Qed.

Lemma fields_from_field (f s current : string) :
  has_bar f = false ->
  fields_from current (f ++ s)%string = fields_from (current ++ f)%string s.
Proof.
  revert current. induction f as [|c f IH]; intros current Hf; simpl.
  - rewrite string_app_empty. reflexivity.
  - simpl in Hf. apply orb_false_iff in Hf as [Hc Hrest].
    rewrite Hc, (IH _ Hrest), string_app_assoc. reflexivity.
Qed.

(** X24. The fields the controller reads off a command are the maximal
    runs between bars: none is empty and none contains a bar, so leading,
    trailing and doubled bars are ignored; and a command built by joining
    such fields with bars is read back as exactly those fields. *)
Theorem gmatch_fields_round_trip :
  (forall cmd, Forall plain_field (gmatch_fields cmd))
  /\ (forall fields, Forall plain_field fields ->
                     gmatch_fields (join_fields fields) = fields).
Proof.
  split.
  - intros cmd. apply fields_from_plain. reflexivity.
  - unfold gmatch_fields. induction 1 as [|f rest [Hne Hbar] Hrest IH];
      [reflexivity|].
    destruct rest as [|g rest'].
    + simpl. rewrite <- (string_app_empty f) at 1.
      rewrite fields_from_field by assumption.
      change ("" ++ f)%string with f. simpl.
      destruct (String.eqb_spec f ""); [contradiction|reflexivity].
    + change (join_fields (f :: g :: rest'))
        with (f ++ String bar (join_fields (g :: rest')))%string.
      rewrite fields_from_field by assumption.
      change ("" ++ f)%string with f. cbn [fields_from].
      rewrite Ascii.eqb_refl.
      destruct (String.eqb_spec f ""); [contradiction|].
      rewrite IH. reflexivity.
Qed.

End CommandParsing.

Section ControllerFrames.
Import Controller.

Variable read8 : Z -> Z.
Variable tonumber : string -> option Z.
Variable tonumber16 : string -> option Z.

Lemma same_outside_refl (m : Machine) : same_outside m m.
Proof. repeat split. Qed.

Lemma same_outside_trans (m1 m2 m3 : Machine) :
  same_outside m1 m2 -> same_outside m2 m3 -> same_outside m1 m3.
Proof.
  unfold same_outside. intros (H1 & H2 & H3 & H4 & H5) (G1 & G2 & G3 & G4 & G5).
  repeat split; congruence.
Qed.

Lemma release_entry_view (k0 : nat) (v0 : bool) (m : Machine) :
  pressedButtons m !! k0 = Some v0 ->
  fst (release_entry (k0, v0) m) = Done tt
  /\ key_view (snd (release_entry (k0, v0) m)) k0 = release_view (key_view m k0)
  /\ (forall k, k <> k0 ->
                key_view (snd (release_entry (k0, v0) m)) k = key_view m k)
  /\ same_outside m (snd (release_entry (k0, v0) m)).
Proof.
  intros Hk0. unfold release_entry, key_view, release_view. rewrite Hk0.
  destruct v0; [|simpl; rewrite Hk0; repeat split].
  unfold bind, assign_frames, clearKey, assign_pressed, ret. simpl.
  destruct (HOLD_FRAMES <? S (default 0 (framesSincePress m !! k0)))%nat eqn:Hold;
    simpl.
  - split; [reflexivity|]. split; [|split; [|repeat split]].
    + rewrite !lookup_delete_eq. f_equal.
      apply bool_decide_eq_false.
      rewrite elem_of_difference, elem_of_singleton. tauto.
    + intros k Hne. rewrite !lookup_delete_ne, lookup_insert_ne by congruence.
      f_equal. apply bool_decide_ext.
      rewrite elem_of_difference, elem_of_singleton. tauto.
  - split; [reflexivity|]. split; [|split; [|repeat split]].
    + rewrite lookup_insert_eq, Hk0. reflexivity.
    + intros k Hne. rewrite lookup_insert_ne by congruence. reflexivity.
Qed.

Lemma for_each_release (l : list (nat * bool)) :
  NoDup l.*1 ->
  forall m,
    (forall k v, (k, v) ∈ l -> pressedButtons m !! k = Some v) ->
    fst (for_each l release_entry m) = Done tt
    /\ (forall k, key_view (snd (for_each l release_entry m)) k
                  = if decide (k ∈ l.*1) then release_view (key_view m k)
                    else key_view m k)
    /\ same_outside m (snd (for_each l release_entry m)).
Proof.
  induction l as [|[k0 v0] l IH]; intros Hnodup m Hl.
  - simpl. split; [reflexivity|]. split; [|apply same_outside_refl].
    intros k. destruct (decide (k ∈ [])) as [Hin|_]; [|reflexivity].
    inversion Hin.
  - simpl in Hnodup. apply NoDup_cons in Hnodup as [Hfresh Hnodup].
    destruct (release_entry_view k0 v0 m) as (Hdone & Hview & Hothers & Hout).
    { apply Hl. left. }
    cbn [for_each]. unfold bind.
    destruct (release_entry (k0, v0) m) as [o m1] eqn:Hstep.
    cbn [fst snd] in Hdone, Hview, Hothers, Hout. subst o.
    destruct (IH Hnodup m1) as (Hdone' & Hview' & Hout').
    { intros k v Hkv.
      assert (Hne : k <> k0).
      { intros ->. apply Hfresh. apply list_elem_of_fmap. exists (k0, v). auto. }
      specialize (Hothers k Hne). unfold key_view in Hothers.
      injection Hothers as Hp _ _. rewrite Hp. apply Hl. right. exact Hkv. }
    split; [exact Hdone'|].
    split; [|exact (same_outside_trans _ _ _ Hout Hout')].
    intros k. rewrite Hview'. rewrite fmap_cons. cbn [fst].
    destruct (decide (k = k0)) as [->|Hne].
    + rewrite decide_False by exact Hfresh.
      rewrite decide_True by left. exact Hview.
    + rewrite (Hothers k Hne).
      destruct (decide (k ∈ l.*1)) as [Hin|Hnin].
      * rewrite decide_True by (right; exact Hin). reflexivity.
      * rewrite decide_False; [reflexivity|].
        intros Hin2. apply elem_of_cons in Hin2 as [?|?]; contradiction.
Qed.

Lemma release_expired_view (m : Machine) :
  fst (release_expired m) = Done tt
  /\ (forall k, key_view (snd (release_expired m)) k = release_view (key_view m k))
  /\ same_outside m (snd (release_expired m)).
Proof.
  unfold release_expired.
  destruct (for_each_release (map_to_list (pressedButtons m))
              (NoDup_fst_map_to_list _) m) as (Hdone & Hview & Hout).
  { intros k v Hkv. apply elem_of_map_to_list. exact Hkv. }
  split; [exact Hdone|]. split; [|exact Hout].
  intros k. rewrite Hview.
  destruct (decide (k ∈ (map_to_list (pressedButtons m)).*1)) as [_|Hnin];
    [reflexivity|].
  unfold key_view, release_view.
  destruct (pressedButtons m !! k) as [v|] eqn:Hk; [|reflexivity].
  exfalso. apply Hnin. apply list_elem_of_fmap. exists (k, v).
  split; [reflexivity|]. apply elem_of_map_to_list. exact Hk.
Qed.

Lemma idle_frame (m : Machine) :
  command_file m = None ->
  fst (frame read8 tonumber tonumber16 m) = Done tt
  /\ (forall k, key_view (snd (frame read8 tonumber tonumber16 m)) k
                = release_view (key_view m k))
  /\ same_outside m (snd (frame read8 tonumber tonumber16 m)).
Proof.
  intros Hnone. destruct (release_expired_view m) as (Hdone & Hview & Hout).
  unfold frame, bind. destruct (release_expired m) as [o m0].
  cbn [fst snd] in Hdone, Hview, Hout. subst o.
  unfold readCommand. destruct Hout as (Hc & Hrest). rewrite Hc, Hnone. simpl.
  split; [reflexivity|]. split; [exact Hview|]. split; [exact Hc|exact Hrest].
Qed.

Lemma idle_frames (n : nat) (m : Machine) :
  command_file m = None ->
  (forall k, key_view (frames read8 tonumber tonumber16 n m) k
             = release_views n (key_view m k))
  /\ same_outside m (frames read8 tonumber tonumber16 n m).
Proof.
  revert m. induction n as [|n IH]; intros m Hnone.
  - split; [reflexivity|apply same_outside_refl].
  - destruct (idle_frame m Hnone) as (_ & Hview & Hout).
    destruct (IH (snd (frame read8 tonumber tonumber16 m))) as [Hviews Hout'].
    { destruct Hout as (Hc & _). rewrite Hc. exact Hnone. }
    simpl. split; [|eapply same_outside_trans; eassumption].
    intros k. rewrite Hviews, Hview. reflexivity.
Qed.

Lemma frame_with_command (content : string) (m : Machine) :
  content <> ""%string ->
  exists m0,
    same_outside (write_command content m) m0
    /\ (forall k, key_view m0 k = release_view (key_view m k))
    /\ frame read8 tonumber tonumber16 (write_command content m)
       = match handleCommand read8 tonumber tonumber16
                 (strip_newlines content) (consumed m0) with
         | (Done (Some r), m1) => writeResponse r m1
         | (Done None, m1) => (Done tt, m1)
         | (Raised e, m1) => (Raised e, m1)
         end.
Proof.
  intros Hne.
  destruct (release_expired_view (write_command content m)) as (Hdone & Hview & Hout).
  unfold frame, bind.
  destruct (release_expired (write_command content m)) as [o m0].
  cbn [fst snd] in Hdone, Hview, Hout. subst o.
  exists m0. split; [exact Hout|]. split; [exact Hview|].
  unfold readCommand. destruct Hout as (Hc & _). rewrite Hc. simpl.
  destruct (String.eqb_spec content ""); [contradiction|].
  fold (consumed m0).
  destruct (handleCommand read8 tonumber tonumber16 (strip_newlines content)
              (consumed m0)) as [[[r|]|e] m1]; reflexivity.
Qed.

Lemma fields_not_empty_command (cmd : string) (f : string) (rest : list string) :
  gmatch_fields cmd = f :: rest -> cmd <> ""%string.
Proof. intros Hfields ->. discriminate. Qed.

Lemma strip_not_empty (content : string) :
  strip_newlines content <> ""%string -> content <> ""%string.
Proof. intros Hstrip ->. apply Hstrip. reflexivity. Qed.

Lemma handleCommand_tap (cmd button : string) (rest : list string) (key : nat) (m : Machine) :
  gmatch_fields cmd = "TAP"%string :: button :: rest ->
  lookup_button (upper button) = Some key ->
  exists m1,
    handleCommand read8 tonumber tonumber16 cmd m = (Done (Some "OK"%string), m1)
    /\ key_view m1 key = (Some true, Some 0, true)
    /\ command_file m1 = command_file m
    /\ response_writable m1 = response_writable m.
Proof.
  intros Hfields Hkey. unfold handleCommand.
  destruct (String.eqb_spec cmd "") as [->|_]; [discriminate|].
  rewrite Hfields. unfold bind, expect, ret, log, addKey, assign_pressed,
    assign_frames. simpl. rewrite Hkey. simpl.
  eexists. split; [reflexivity|]. unfold key_view. simpl.
  rewrite !lookup_insert_eq. repeat split. f_equal.
  apply bool_decide_eq_true. apply elem_of_union_l, elem_of_singleton. reflexivity.
Qed.

Lemma writeResponse_view (r : string) (m : Machine) :
  fst (writeResponse r m) = Done tt
  /\ (forall k, key_view (snd (writeResponse r m)) k = key_view m k)
  /\ command_file (snd (writeResponse r m)) = command_file m
  /\ (response_writable m = true -> response_file (snd (writeResponse r m)) = Some r).
Proof.
  unfold writeResponse. destruct (response_writable m); simpl; repeat split.
  discriminate.
Qed.

Lemma held_views (n : nat) :
  n <= HOLD_FRAMES ->
  release_views n (Some true, Some 0, true) = (Some true, Some n, true).
Proof.
  unfold HOLD_FRAMES. intros Hn.
  do 9 (destruct n as [|n]; [reflexivity|]). lia.
Qed.

Lemma released_views :
  release_views (S HOLD_FRAMES) (Some true, Some 0, true) = (None, None, false).
Proof. reflexivity. Qed.

Lemma view_components (m : Machine) (k : nat)
      (p : option bool) (f : option nat) (h : bool) :
  key_view m k = (p, f, h) ->
  pressedButtons m !! k = p
  /\ framesSincePress m !! k = f
  /\ (h = true -> k ∈ keys m)
  /\ (h = false -> k ∉ keys m).
Proof.
  unfold key_view. intros Hview.
  apply pair_equal_spec in Hview as [Hview Hheld].
  apply pair_equal_spec in Hview as [Hp Hf].
  repeat split; try assumption.
  - intros ->. apply bool_decide_eq_true in Hheld. exact Hheld.
  - intros ->. apply bool_decide_eq_false in Hheld. exact Hheld.
Qed.

(** X25. A [TAP] of a known button presses its key at once and answers
    [OK]; when no further command arrives, the key is held through the
    next eight frame callbacks and the ninth releases it and forgets the
    tap: both the press and its frame counter are gone. Taps of other
    buttons in progress do not change this. *)
Theorem tap_holds_then_releases
        (content button : string) (rest : list string) (key : nat) (m : Machine) :
  gmatch_fields (strip_newlines content) = "TAP"%string :: button :: rest ->
  lookup_button (upper button) = Some key ->
  let m1 := snd (frame read8 tonumber tonumber16 (write_command content m)) in
  command_file m1 = None
  /\ (response_writable m = true -> response_file m1 = Some "OK"%string)
  /\ (forall n, n <= HOLD_FRAMES ->
                key ∈ keys (frames read8 tonumber tonumber16 n m1))
  /\ (key ∉ keys (frames read8 tonumber tonumber16 (S HOLD_FRAMES) m1))
  /\ pressedButtons (frames read8 tonumber tonumber16 (S HOLD_FRAMES) m1) !! key
     = None
  /\ framesSincePress (frames read8 tonumber tonumber16 (S HOLD_FRAMES) m1) !! key
     = None.
Proof.
  intros Hfields Hkey. cbv zeta.
  pose proof (fields_not_empty_command _ _ _ Hfields) as Hcmd.
  pose proof (strip_not_empty _ Hcmd) as Hcontent.
  destruct (frame_with_command content m Hcontent) as (m0 & Hout0 & _ & Hframe).
  destruct (handleCommand_tap (strip_newlines content) button rest key
              (consumed m0) Hfields Hkey) as (m1 & Hrun & Hview1 & Hc1 & Hw1).
  rewrite Hframe, Hrun.
  destruct (writeResponse_view "OK" m1) as (_ & Hview2 & Hc2 & Hresp).
  set (m2 := snd (writeResponse "OK" m1)) in *.
  assert (Hnone : command_file m2 = None) by (rewrite Hc2, Hc1; reflexivity).
  assert (Hview : key_view m2 key = (Some true, Some 0, true))
    by (rewrite Hview2; exact Hview1).
  split; [exact Hnone|]. split.
  { intros Hw. apply Hresp. rewrite Hw1. simpl.
    destruct Hout0 as (_ & _ & Hw0 & _). rewrite Hw0. exact Hw. }
  split; [|split; [|split]].
  - intros n Hn.
    destruct (idle_frames n m2 Hnone) as [Hviews _].
    specialize (Hviews key). rewrite Hview, held_views in Hviews by exact Hn.
    apply view_components in Hviews as (_ & _ & Hheld & _).
    apply Hheld. reflexivity.
  - destruct (idle_frames (S HOLD_FRAMES) m2 Hnone) as [Hviews _].
    specialize (Hviews key). rewrite Hview, released_views in Hviews.
    apply view_components in Hviews as (_ & _ & _ & Hfree).
    apply Hfree. reflexivity.
  - destruct (idle_frames (S HOLD_FRAMES) m2 Hnone) as [Hviews _].
    specialize (Hviews key). rewrite Hview, released_views in Hviews.
    apply view_components in Hviews as (Hp & _). exact Hp.
  - destruct (idle_frames (S HOLD_FRAMES) m2 Hnone) as [Hviews _].
    specialize (Hviews key). rewrite Hview, released_views in Hviews.
    apply view_components in Hviews as (_ & Hf & _). exact Hf.
Qed.

End ControllerFrames.

Section ControllerCommands.
Import Controller.

Variable read8 : Z -> Z.
Variable tonumber : string -> option Z.
Variable tonumber16 : string -> option Z.

Lemma untapped_views (n : nat) (f : option nat) (h : bool) :
  release_views n (None, f, h) = (None, f, h).
Proof. induction n as [|n IH]; [reflexivity|exact IH]. Qed.

Lemma handleCommand_button_press
      (cmd button : string) (rest : list string) (key : nat) (m : Machine) :
  gmatch_fields cmd = "BUTTON"%string :: button :: rest ->
  lookup_button (upper button) = Some key ->
  String.eqb (default "1"%string (rest !! 0)) "1"
  || String.eqb (default "1"%string (rest !! 0)) "press" = true ->
  exists m1,
    handleCommand read8 tonumber tonumber16 cmd m = (Done (Some "OK"%string), m1)
    /\ key_view m1 key
       = (pressedButtons m !! key, framesSincePress m !! key, true)
    /\ command_file m1 = command_file m
    /\ response_writable m1 = response_writable m.
Proof.
  intros Hfields Hkey Hstate. unfold handleCommand.
  destruct (String.eqb_spec cmd "") as [->|_]; [discriminate|].
  rewrite Hfields. unfold bind, expect, ret, log, addKey. simpl.
  rewrite Hkey. simpl.
  change (match rest with [] => None | x :: _ => Some x end) with (rest !! 0) in *.
  rewrite Hstate. simpl.
  eexists. split; [reflexivity|]. unfold key_view. simpl.
  repeat split. f_equal.
  apply bool_decide_eq_true. apply elem_of_union_l, elem_of_singleton. reflexivity.
Qed.

(** X26. A key pressed with [BUTTON] (state [1], [press] or none) for
    which no tap is in progress stays down over any number of frame
    callbacks in which no command arrives: only taps are released
    automatically. *)
Theorem button_press_is_held
        (content button : string) (rest : list string) (key : nat) (m : Machine) :
  gmatch_fields (strip_newlines content) = "BUTTON"%string :: button :: rest ->
  lookup_button (upper button) = Some key ->
  String.eqb (default "1"%string (rest !! 0)) "1"
  || String.eqb (default "1"%string (rest !! 0)) "press" = true ->
  pressedButtons m !! key = None ->
  let m1 := snd (frame read8 tonumber tonumber16 (write_command content m)) in
  forall n, key ∈ keys (frames read8 tonumber tonumber16 n m1).
Proof.
  intros Hfields Hkey Hstate Huntapped. cbv zeta. intros n.
  pose proof (fields_not_empty_command _ _ _ Hfields) as Hcmd.
  pose proof (strip_not_empty _ Hcmd) as Hcontent.
  destruct (frame_with_command read8 tonumber tonumber16 content m Hcontent)
    as (m0 & Hout0 & Hview0 & Hframe).
  destruct (handleCommand_button_press (strip_newlines content) button rest key
              (consumed m0) Hfields Hkey Hstate) as (m1 & Hrun & Hview1 & Hc1 & _).
  rewrite Hframe, Hrun.
  destruct (writeResponse_view "OK" m1) as (_ & Hview2 & Hc2 & _).
  set (m2 := snd (writeResponse "OK" m1)) in *.
  assert (Hnone : command_file m2 = None) by (rewrite Hc2, Hc1; reflexivity).
  assert (Hp0 : pressedButtons m0 !! key = None).
  { specialize (Hview0 key). unfold key_view at 2 in Hview0.
    rewrite Huntapped in Hview0. simpl in Hview0.
    apply view_components in Hview0 as (Hp & _). exact Hp. }
  destruct (idle_frames read8 tonumber tonumber16 n m2 Hnone) as [Hviews _].
  specialize (Hviews key). rewrite Hview2, Hview1 in Hviews.
  change (pressedButtons (consumed m0) !! key) with (pressedButtons m0 !! key) in Hviews.
  rewrite Hp0, untapped_views in Hviews.
  apply view_components in Hviews as (_ & _ & Hheld & _).
  apply Hheld. reflexivity.
Qed.

(** X27. A command that names no action, or [BUTTON], [TAP] or [READ]
    without its argument, raises a Lua error in the frame callback: the
    command file is already removed and no response is written, so the
    sender never gets an answer. *)
Theorem incomplete_command_stays_unanswered (content : string) (m : Machine) :
  strip_newlines content <> ""%string ->
  gmatch_fields (strip_newlines content) = []
  \/ gmatch_fields (strip_newlines content) = ["BUTTON"%string]
  \/ gmatch_fields (strip_newlines content) = ["TAP"%string]
  \/ gmatch_fields (strip_newlines content) = ["READ"%string] ->
  let result := frame read8 tonumber tonumber16 (write_command content m) in
  (exists e, fst result = Raised e)
  /\ command_file (snd result) = None
  /\ response_file (snd result) = response_file m.
Proof.
  intros Hcmd Hfields. cbv zeta.
  pose proof (strip_not_empty _ Hcmd) as Hcontent.
  destruct (frame_with_command read8 tonumber tonumber16 content m Hcontent)
    as (m0 & (_ & Hresp & _) & _ & Hframe).
  rewrite Hframe. unfold handleCommand.
  destruct (String.eqb_spec (strip_newlines content) ""); [contradiction|].
  destruct Hfields as [ -> | [ -> | [ -> | -> ] ] ]; simpl;
    (split; [eexists; reflexivity|split; [reflexivity|exact Hresp]]).
Qed.

Lemma for_each_release_all (l : list nat) (m : Machine) :
  let result :=
    for_each l (fun i => bind (clearKey i) (fun _ => assign_pressed i None)) m in
  fst result = Done tt
  /\ (forall k, k ∈ keys (snd result) <-> k ∈ keys m /\ k ∉ l)
  /\ (forall k, pressedButtons (snd result) !! k
               = if decide (k ∈ l) then None else pressedButtons m !! k)
  /\ framesSincePress (snd result) = framesSincePress m
  /\ same_outside m (snd result).
Proof.
  cbv zeta. revert m. induction l as [|i l IH]; intros m.
  - cbn [for_each]. unfold ret. cbn [fst snd]. split; [reflexivity|]. split.
    { intros k. split; [intros Hk; split; [exact Hk|apply not_elem_of_nil]|tauto]. }
    split; [|split; [reflexivity|apply same_outside_refl]].
    intros k. rewrite decide_False by apply not_elem_of_nil. reflexivity.
  - cbn [for_each]. unfold bind at 1. unfold bind at 1. unfold clearKey at 1.
    unfold assign_pressed at 1. cbn [fst snd].
    destruct (IH (set_pressed (delete i (pressedButtons (set_keys (keys m ∖ {[i]}) m)))
                              (set_keys (keys m ∖ {[i]}) m)))
      as (Hdone & Hkeys & Hpressed & Hframes & Hout).
    split; [exact Hdone|]. split; [|split; [|split]].
    + intros k. rewrite Hkeys. simpl.
      rewrite elem_of_difference, elem_of_singleton, not_elem_of_cons. tauto.
    + intros k. rewrite Hpressed. simpl.
      destruct (decide (k = i)) as [->|Hne].
      * rewrite lookup_delete_eq, (decide_True (P := i ∈ i :: l)) by left.
        destruct (decide (i ∈ l)); reflexivity.
      * rewrite lookup_delete_ne by congruence.
        destruct (decide (k ∈ l)) as [Hin|Hnin].
        -- rewrite decide_True by (right; exact Hin). reflexivity.
        -- rewrite decide_False; [reflexivity|].
           intros Hin2. apply elem_of_cons in Hin2 as [?|?]; contradiction.
    + exact Hframes.
    + exact Hout.
Qed.

(** X28. [RELEASE_ALL] answers [OK], releases each of the ten buttons
    (keys 0 to 9) and forgets the tap in progress of each of them; keys
    outside the ten are left as they are. *)
Theorem release_all_releases_every_button
        (cmd : string) (rest : list string) (m : Machine) :
  gmatch_fields cmd = "RELEASE_ALL"%string :: rest ->
  exists m',
    handleCommand read8 tonumber tonumber16 cmd m = (Done (Some "OK"%string), m')
    /\ (forall k, k < 10 -> (k ∉ keys m') /\ pressedButtons m' !! k = None)
    /\ (forall k, 10 <= k ->
                  (k ∈ keys m' <-> k ∈ keys m)
                  /\ pressedButtons m' !! k = pressedButtons m !! k).
Proof.
  intros Hfields. unfold handleCommand.
  destruct (String.eqb_spec cmd "") as [->|_]; [discriminate|].
  rewrite Hfields. unfold bind at 1. unfold expect, ret. cbn [lookup list_lookup].
  unfold bind at 1. unfold log at 1. cbn [fst snd].
  change (String.eqb "RELEASE_ALL" "BUTTON") with false.
  change (String.eqb "RELEASE_ALL" "TAP") with false.
  change (String.eqb "RELEASE_ALL" "RELEASE_ALL") with true. cbv iota.
  unfold bind at 1.
  match goal with
  | |- context [for_each ?l ?body ?m0] =>
      destruct (for_each_release_all l m0) as (Hdone & Hkeys & Hpressed & _ & _);
      destruct (for_each l body m0) as [o m'] eqn:Hloop
  end.
  cbn [fst snd] in Hdone, Hkeys, Hpressed. subst o.
  exists m'. split; [reflexivity|]. split.
  - intros k Hk.
    assert (Hin : k ∈ seq 0 10) by (apply elem_of_seq; lia).
    split.
    + rewrite Hkeys. tauto.
    + rewrite Hpressed, decide_True by exact Hin. reflexivity.
  - intros k Hk.
    assert (Hnin : k ∉ seq 0 10) by (rewrite elem_of_seq; lia).
    split.
    + rewrite Hkeys. simpl. tauto.
    + rewrite Hpressed, decide_False by exact Hnin. reflexivity.
Qed.

Lemma prefix_of_ok (x : string) :
  String.prefix "ERROR" ("OK:" ++ x)%string = false.
Proof. reflexivity. Qed.

(** Splits the conditionals of [handleCommand] once its result is known. *)
Ltac command_cases H :=
  repeat match type of H with
         | context [if String.eqb ?a ?b then _ else _] =>
             destruct (String.eqb a b)
         | context [if ?a || ?b then _ else _] => destruct (a || b)
         | context [match lookup_button ?b with _ => _ end] =>
             destruct (lookup_button b)
         | context [match ?l !! ?i with _ => _ end] => destruct (l !! i)
         | context [match tonumber16 ?t with _ => _ end] =>
             destruct (tonumber16 t)
         | context [match tonumber ?t with _ => _ end] => destruct (tonumber t)
         | context [for_each ?l ?body ?m0] =>
             destruct (for_each l body m0) as [[[]|?] ?]
         end.

(** X29. An [ERROR:] response means that nothing was done: whenever
    [handleCommand] answers with an error (unknown command, unknown button,
    invalid address), the keys held, the taps in progress and the calls
    made to the emulator are exactly as before. *)
Theorem error_response_means_no_effect (cmd r : string) (m m' : Machine) :
  handleCommand read8 tonumber tonumber16 cmd m = (Done (Some r), m') ->
  String.prefix "ERROR" r = true ->
  keys m' = keys m
  /\ pressedButtons m' = pressedButtons m
  /\ framesSincePress m' = framesSincePress m
  /\ emu_calls m' = emu_calls m.
Proof.
  unfold handleCommand, bind, expect, ret, raise, log, emu, addKey, clearKey,
    assign_pressed, assign_frames.
  intros Hrun Herr.
  destruct (String.eqb cmd ""); [discriminate|].
  destruct (gmatch_fields cmd !! 0) as [action|]; [|discriminate].
  cbn [fst snd] in Hrun.
  command_cases Hrun; cbn [fst snd] in Hrun;
    try discriminate Hrun;
    injection Hrun as <- <-;
    try discriminate Herr;
    try (rewrite prefix_of_ok in Herr; discriminate Herr);
    repeat split.
Qed.

Lemma string_length_app (a b : string) :
  String.length (a ++ b)%string = String.length a + String.length b.
Proof.
  induction a as [|x a IH]; [reflexivity|].
  change (S (String.length (a ++ b)%string) = S (String.length a + String.length b)).
  f_equal. exact IH.
Qed.





End ControllerCommands.

Section ControllerWitnesses.
Import Controller.

Lemma tap_holds_then_releases_witness :
  let no_memory := fun _ : Z => 0%Z in
  let no_number := fun _ : string => @None Z in
  let m1 := snd (frame no_memory no_number no_number
                       (write_command "TAP|a" (loaded true))) in
  command_file m1 = None
  /\ (true = true -> response_file m1 = Some "OK"%string)
  /\ (forall n, n <= HOLD_FRAMES ->
                0 ∈ keys (frames no_memory no_number no_number n m1))
  /\ (0 ∉ keys (frames no_memory no_number no_number (S HOLD_FRAMES) m1))
  /\ pressedButtons (frames no_memory no_number no_number (S HOLD_FRAMES) m1) !! 0
     = None
  /\ framesSincePress (frames no_memory no_number no_number (S HOLD_FRAMES) m1) !! 0
     = None.
Proof.
  cbv zeta.
  apply (tap_holds_then_releases (fun _ => 0%Z) (fun _ => None) (fun _ => None)
           "TAP|a" "a" [] 0 (loaded true)).
  - reflexivity.
  - reflexivity.
Defined.

Lemma button_press_is_held_witness :
  let no_memory := fun _ : Z => 0%Z in
  let no_number := fun _ : string => @None Z in
  let m1 := snd (frame no_memory no_number no_number
                       (write_command "BUTTON|start" (loaded true))) in
  3 ∈ keys (frames no_memory no_number no_number 100 m1).
Proof.
  cbv zeta.
  apply (button_press_is_held (fun _ => 0%Z) (fun _ => None) (fun _ => None)
           "BUTTON|start" "start" [] 3 (loaded true)).
  - reflexivity.
  - reflexivity.
  - reflexivity.
  - reflexivity.
Defined.

Lemma incomplete_command_stays_unanswered_witness :
  let no_memory := fun _ : Z => 0%Z in
  let no_number := fun _ : string => @None Z in
  let result := frame no_memory no_number no_number
                      (write_command "TAP" (loaded true)) in
  (exists e, fst result = Raised e)
  /\ command_file (snd result) = None
  /\ response_file (snd result) = None.
Proof.
  cbv zeta.
  apply (incomplete_command_stays_unanswered (fun _ => 0%Z) (fun _ => None)
           (fun _ => None) "TAP" (loaded true)).
  - discriminate.
  - right. right. left. reflexivity.
Defined.

Lemma release_all_releases_every_button_witness :
  let no_memory := fun _ : Z => 0%Z in
  let no_number := fun _ : string => @None Z in
  exists m',
    handleCommand no_memory no_number no_number "RELEASE_ALL" (loaded true)
    = (Done (Some "OK"%string), m')
    /\ (forall k, k < 10 -> (k ∉ keys m') /\ pressedButtons m' !! k = None)
    /\ (forall k, 10 <= k ->
                  (k ∈ keys m' <-> k ∈ keys (loaded true))
                  /\ pressedButtons m' !! k = pressedButtons (loaded true) !! k).
Proof.
  cbv zeta.
  apply (release_all_releases_every_button (fun _ => 0%Z) (fun _ => None)
           (fun _ => None) "RELEASE_ALL" [] (loaded true)).
  reflexivity.
Defined.

Lemma error_response_means_no_effect_witness :
  let no_memory := fun _ : Z => 0%Z in
  let no_number := fun _ : string => @None Z in
  let m' := snd (handleCommand no_memory no_number no_number "TAP|X" (loaded true)) in
  keys m' = keys (loaded true)
  /\ pressedButtons m' = pressedButtons (loaded true)
  /\ framesSincePress m' = framesSincePress (loaded true)
  /\ emu_calls m' = emu_calls (loaded true).
Proof.
  cbv zeta.
  apply (error_response_means_no_effect (fun _ => 0%Z) (fun _ => None)
           (fun _ => None) "TAP|X" "ERROR:Unknown button" (loaded true)).
  - reflexivity.
  - reflexivity.
Defined.


End ControllerWitnesses.
